(** * keras-yolo3: box geometry, target assignment and detection filtering

    A shallow embedding of the numeric core of [yolo3/model.py] and of the
    detector wrapper in [keras_yolo3/yolo.py].

    Numbers.  The Python code computes on float32 arrays.  The embedding
    uses exact rationals ([Q]) for the array code of the target assigner, the
    letterbox correction and the detection filter, and real numbers ([R])
    for the box decoder, which needs [exp].  Rounding of float32 is therefore
    not part of the model.  Division by zero, which numpy and TensorFlow
    answer with NaN or an infinity, is modelled explicitly where a statement
    depends on it (module [Loss]); elsewhere statements carry the hypotheses
    (positive shapes, positive anchors) under which no divisor is zero. *)

From Stdlib Require Import List ZArith QArith Qround Reals Lia Psatz Bool.
From Stdlib Require Import Permutation.
From Stdlib Require String.
Import ListNotations.

(** ** Rational helpers *)

Module QAux.

Local Open Scope Q_scope.

(** Strict comparison as a boolean, as numpy's elementwise [<]. *)
Definition Qltb (x y : Q) : bool := negb (Qle_bool y x).

Lemma Qltb_lt x y : Qltb x y = true <-> x < y.
Proof.
  unfold Qltb. rewrite negb_true_iff.
  destruct (Qle_bool y x) eqn:E.
  - apply Qle_bool_iff in E. split; [discriminate | intro H].
    exfalso. apply (Qlt_not_le _ _ H E).
  - split; [intros _ | reflexivity].
    apply Qnot_le_lt. intro H. apply Qle_bool_iff in H. congruence.
Qed.

Lemma Qltb_ge x y : Qltb x y = false <-> y <= x.
Proof.
  unfold Qltb. rewrite negb_false_iff. apply Qle_bool_iff.
Qed.

(** [.astype('int32')] on a float: truncation toward zero. *)
Definition Qtrunc (x : Q) : Z :=
  if Qltb x 0 then Qceiling x else Qfloor x.

(** Float floor division [x // 2]. *)
Definition floor_div2 (x : Q) : Q := inject_Z (Qfloor (x / 2)).

(** [K.round]: round half to even. *)
Definition round_half_even (x : Q) : Z :=
  let f := Qfloor x in
  let r := x - inject_Z f in
  if Qltb r (1 # 2) then f
  else if Qltb (1 # 2) r then (f + 1)%Z
  else if Z.even f then f else (f + 1)%Z.

Definition Qmax (x y : Q) : Q := if Qltb x y then y else x.
Definition Qmin (x y : Q) : Q := if Qltb y x then y else x.

Lemma Qmax_ub_l x y : x <= Qmax x y.
Proof.
  unfold Qmax. destruct (Qltb x y) eqn:E.
  - apply Qltb_lt in E. apply Qlt_le_weak, E.
  - apply Qle_refl.
Qed.

Lemma Qmax_ub_r x y : y <= Qmax x y.
Proof.
  unfold Qmax. destruct (Qltb x y) eqn:E.
  - apply Qle_refl.
  - apply Qltb_ge in E. exact E.
Qed.

Lemma Qmax_case x y : Qmax x y = x \/ Qmax x y = y.
Proof. unfold Qmax. destruct (Qltb x y); auto. Qed.


Lemma Qmin_lb_l x y : Qmin x y <= x.
Proof.
  unfold Qmin. destruct (Qltb y x) eqn:E.
  - apply Qltb_lt in E. apply Qlt_le_weak, E.
  - apply Qle_refl.
Qed.

Lemma Qmin_lb_r x y : Qmin x y <= y.
Proof.
  unfold Qmin. destruct (Qltb y x) eqn:E.
  - apply Qle_refl.
  - apply Qltb_ge in E. exact E.
Qed.

End QAux.

(** ** Python exceptions and the allocation-counting error monad *)

Module Py.

Inductive Exn : Type :=
| AssertionError
| KeyError
| ValueError
| IndexError.

(** A computation that may raise, threading the number of target arrays
    built so far by [np.zeros]. *)
Definition M (A : Type) : Type := nat -> (Exn + A) * nat.

Definition ret {A} (a : A) : M A := fun s => (inr a, s).
Definition raise {A} (e : Exn) : M A := fun s => (inl e, s).
Definition bind {A B} (m : M A) (f : A -> M B) : M B :=
  fun s => match m s with
           | (inl e, s') => (inl e, s')
           | (inr a, s') => f a s'
           end.

Fixpoint mapM {A B} (f : A -> M B) (l : list A) : M (list B) :=
  match l with
  | [] => ret []
  | x :: r => bind (f x) (fun y => bind (mapM f r) (fun ys => ret (y :: ys)))
  end.

Fixpoint foldM {A S} (f : S -> A -> M S) (l : list A) (s : S) : M S :=
  match l with
  | [] => ret s
  | x :: r => bind (f s x) (foldM f r)
  end.

(** Index into a sequence of length [len] the way Python and numpy do:
    negative indices count from the end, anything else out of range is an
    [IndexError]. *)
Definition py_index (len : nat) (i : Z) : Exn + nat :=
  if (0 <=? i)%Z && (i <? Z.of_nat len)%Z then inr (Z.to_nat i)
  else if (- Z.of_nat len <=? i)%Z && (i <? 0)%Z then inr (Z.to_nat (Z.of_nat len + i))
  else inl IndexError.

(** [l[n] = f(l[n])] for an index already known to be in range. *)
Fixpoint upd {A} (n : nat) (f : A -> A) (l : list A) : list A :=
  match l, n with
  | [], _ => []
  | x :: r, O => f x :: r
  | x :: r, S n' => x :: upd n' f r
  end.

(** [list.index]: first position of [n], if any. *)
Fixpoint index_of (n : nat) (l : list nat) : option nat :=
  match l with
  | [] => None
  | x :: r => if Nat.eqb x n then Some O
              else match index_of n r with
                   | Some k => Some (S k)
                   | None => None
                   end
  end.

(** [n in l]. *)
Definition mem (n : nat) (l : list nat) : bool := existsb (Nat.eqb n) l.

End Py.

(** ** Target assigner: [preprocess_true_boxes] (yolo3/model.py) *)

Module Assigner.

Import QAux Py.
Local Open Scope Q_scope.

(** One row of [true_boxes]: [x_min, y_min, x_max, y_max, class_id].  After
    the in-place normalisation of columns 0..3 the same row holds
    [cx / W, cy / H, w / W, h / H, class_id]. *)
Record TrueBox : Type := mkTrueBox
  { x_min : Q; y_min : Q; x_max : Q; y_max : Q; class_id : Q }.

(** A target array of shape [(m, grid_h, grid_w, anchors_per_scale, 5 + C)]. *)
Definition Tensor5 : Type := list (list (list (list (list Q)))).

Definition nat2Q (n : nat) : Q := inject_Z (Z.of_nat n).

(** [(true_boxes[..., 4] < num_classes).all()] *)
Definition class_ids_ok (true_boxes : list (list TrueBox)) (num_classes : nat) : bool :=
  forallb (forallb (fun r => Qltb (class_id r) (nat2Q num_classes))) true_boxes.

Definition anchor_mask (num_layers : nat) : list (list nat) :=
  if Nat.eqb num_layers 3
  then [[6; 7; 8]; [3; 4; 5]; [0; 1; 2]]%nat
  else [[3; 4; 5]; [1; 2; 3]]%nat.

(** [boxes_xy = (true_boxes[..., 0:2] + true_boxes[..., 2:4]) // 2] *)
Definition boxes_xy (r : TrueBox) : Q * Q :=
  (floor_div2 (x_min r + x_max r), floor_div2 (y_min r + y_max r)).

(** [boxes_wh = true_boxes[..., 2:4] - true_boxes[..., 0:2]] *)
Definition boxes_wh (r : TrueBox) : Q * Q :=
  (x_max r - x_min r, y_max r - y_min r).

(** The two in-place assignments dividing by [input_shape[::-1]];
    [input_shape] is [(h, w)]. *)
Definition normalize (input_shape : nat * nat) (r : TrueBox) : TrueBox :=
  {| x_min := fst (boxes_xy r) / nat2Q (snd input_shape);
     y_min := snd (boxes_xy r) / nat2Q (fst input_shape);
     x_max := fst (boxes_wh r) / nat2Q (snd input_shape);
     y_max := snd (boxes_wh r) / nat2Q (fst input_shape);
     class_id := class_id r |}.

(** [{0: 32, 1: 16, 2: 8}[l]] *)
Definition stride (l : nat) : Exn + nat :=
  match l with
  | 0%nat => inr 32%nat
  | 1%nat => inr 16%nat
  | 2%nat => inr 8%nat
  | _ => inl KeyError
  end.

Definition grid_shape (input_shape : nat * nat) (l : nat) : M (nat * nat) :=
  match stride l with
  | inl e => raise e
  | inr s => ret (Nat.div (fst input_shape) s, Nat.div (snd input_shape) s)
  end.

(** [np.zeros((m, gh, gw, a, ch))]; every call counts as one array built. *)
Definition np_zeros (m gh gw a ch : nat) : M Tensor5 :=
  fun s => (inr (repeat (repeat (repeat (repeat (repeat 0 ch) a) gw) gh) m), S s).

(** IoU of a box of size [wh] and an anchor, both centred at the origin
    (the body of the per-image loop up to [iou = ...]). *)
Definition shape_iou (wh anchor : Q * Q) : Q :=
  let box_maxes := (fst wh / 2, snd wh / 2) in
  let box_mins := (- fst box_maxes, - snd box_maxes) in
  let anchor_maxes := (fst anchor / 2, snd anchor / 2) in
  let anchor_mins := (- fst anchor_maxes, - snd anchor_maxes) in
  let intersect_mins :=
    (Qmax (fst box_mins) (fst anchor_mins), Qmax (snd box_mins) (snd anchor_mins)) in
  let intersect_maxes :=
    (Qmin (fst box_maxes) (fst anchor_maxes), Qmin (snd box_maxes) (snd anchor_maxes)) in
  let intersect_wh :=
    (Qmax (fst intersect_maxes - fst intersect_mins) 0,
     Qmax (snd intersect_maxes - snd intersect_mins) 0) in
  let intersect_area := fst intersect_wh * snd intersect_wh in
  let box_area := fst wh * snd wh in
  let anchor_area := fst anchor * snd anchor in
  intersect_area / (box_area + anchor_area - intersect_area).

(** [np.argmax]: index of the first maximal element. *)
Fixpoint argmax_from (best : Q) (bi i : nat) (l : list Q) : nat :=
  match l with
  | [] => bi
  | x :: r => if Qltb best x then argmax_from x i (S i) r
              else argmax_from best bi (S i) r
  end.

Definition argmax (l : list Q) : Exn + nat :=
  match l with
  | [] => inl ValueError
  | x :: r => inr (argmax_from x 0 1 r)
  end.

(** [wh = boxes_wh[b, valid_mask[b]]] with [valid_mask = boxes_wh[..., 0] > 0]. *)
Definition valid (r : TrueBox) : bool := Qltb 0 (fst (boxes_wh r)).

Definition valid_wh (rows : list TrueBox) : list (Q * Q) :=
  map boxes_wh (filter valid rows).

Definition iou_row (anchors : list (Q * Q)) (wh : Q * Q) : list Q :=
  map (shape_iou wh) anchors.

(** [best_anchor = np.argmax(iou, axis=-1)] *)
Fixpoint best_anchor (anchors : list (Q * Q)) (whs : list (Q * Q)) : Exn + list nat :=
  match whs with
  | [] => inr []
  | wh :: r =>
      match argmax (iou_row anchors wh), best_anchor anchors r with
      | inr n, inr ns => inr (n :: ns)
      | inl e, _ => inl e
      | _, inl e => inl e
      end
  end.

(** One execution of the three assignments of the innermost loop body. *)
Record Write : Type := mkWrite
  { w_layer : nat;   (* l *)
    w_image : nat;   (* b *)
    w_row : Z;       (* j *)
    w_col : Z;       (* i *)
    w_slot : nat;    (* k *)
    w_class : Z;     (* c *)
    w_box : TrueBox  (* true_boxes[b, t], after normalisation *) }.

(** [for l in range(num_layers): if n in anchor_mask[l]: ...] for the
    [t]-th entry [n] of [best_anchor] and the row [true_boxes[b, t]]. *)
Definition box_writes (num_layers : nat) (grid_shapes : list (nat * nat))
    (b : nat) (row : TrueBox) (n : nat) : list Write :=
  flat_map
    (fun l =>
       let mask := nth l (anchor_mask num_layers) [] in
       if mem n mask then
         let g := nth l grid_shapes (0, 0)%nat in
         [ {| w_layer := l;
              w_image := b;
              w_row := Qfloor (y_min row * nat2Q (fst g));
              w_col := Qfloor (x_min row * nat2Q (snd g));
              w_slot := match index_of n mask with Some k => k | None => 0%nat end;
              w_class := Qtrunc (class_id row);
              w_box := row |} ]
       else [])
    (seq 0 num_layers).

(** [for t, n in enumerate(best_anchor)]: the row read is row [t] of the
    full (unfiltered) array. *)
Definition dummy_row : TrueBox := mkTrueBox 0 0 0 0 0.

Definition image_writes (num_layers : nat) (grid_shapes : list (nat * nat))
    (b : nat) (nrows : list TrueBox) (best : list nat) : list Write :=
  flat_map
    (fun tn => box_writes num_layers grid_shapes b (nth (fst tn) nrows dummy_row) (snd tn))
    (combine (seq 0 (length best)) best).

Definition set4 (r : TrueBox) (v : list Q) : list Q :=
  upd 3 (fun _ => y_max r) (upd 2 (fun _ => x_max r)
    (upd 1 (fun _ => y_min r) (upd 0 (fun _ => x_min r) v))).

(** [y_true[l][b, j, i, k, 0:4] = true_boxes[b, t, 0:4]],
    [y_true[l][b, j, i, k, 4] = 1], [y_true[l][b, j, i, k, 5 + c] = 1]. *)
Definition apply_write (grid_shapes : list (nat * nat)) (num_classes : nat)
    (y_true : list Tensor5) (w : Write) : M (list Tensor5) :=
  let g := nth (w_layer w) grid_shapes (0, 0)%nat in
  match py_index (fst g) (w_row w), py_index (snd g) (w_col w),
        py_index (5 + num_classes) (5 + w_class w) with
  | inr j, inr i, inr ch =>
      ret (upd (w_layer w)
             (upd (w_image w)
                (upd j (upd i (upd (w_slot w)
                   (fun v => upd ch (fun _ => 1)
                               (upd 4 (fun _ => 1) (set4 (w_box w) v)))))))
             y_true)
  | _, _, _ => raise IndexError
  end.

(** The body of [for b in range(m)]. *)
Definition process_image (anchors : list (Q * Q)) (num_layers : nat)
    (grid_shapes : list (nat * nat)) (input_shape : nat * nat) (num_classes : nat)
    (y_true : list Tensor5) (brows : nat * list TrueBox) : M (list Tensor5) :=
  let '(b, rows) := brows in
  match valid_wh rows with
  | [] => ret y_true
  | wh =>
      match best_anchor anchors wh with
      | inl e => raise e
      | inr best =>
          foldM (apply_write grid_shapes num_classes)
                (image_writes num_layers grid_shapes b (map (normalize input_shape) rows) best)
                y_true
      end
  end.

Definition preprocess_true_boxes (true_boxes : list (list TrueBox))
    (input_shape : nat * nat) (anchors : list (Q * Q)) (num_classes : nat)
    : M (list Tensor5) :=
  if class_ids_ok true_boxes num_classes then
    let num_layers := Nat.div (length anchors) 3 in
    let m := length true_boxes in
    bind (mapM (grid_shape input_shape) (seq 0 num_layers)) (fun grid_shapes =>
    bind (mapM (fun l => np_zeros m (fst (nth l grid_shapes (0, 0)%nat))
                                    (snd (nth l grid_shapes (0, 0)%nat))
                                    (length (nth l (anchor_mask num_layers) []))
                                    (5 + num_classes))
               (seq 0 num_layers)) (fun y_true =>
    foldM (process_image anchors num_layers grid_shapes input_shape num_classes)
          (combine (seq 0 m) true_boxes) y_true))
  else raise AssertionError.

(** Running the function from a fresh state: the outcome and the number of
    target arrays that were built. *)
Definition run {A} (c : M A) : (Exn + A) * nat := c 0%nat.

End Assigner.

(** ** Facts about the error monad *)

Module PyFacts.

Import Py.

(** A computation that never fails with the assertion error. *)
Definition no_assert {A} (c : M A) : Prop :=
  forall s, fst (c s) <> inl AssertionError.

Lemma no_assert_ret {A} (a : A) : no_assert (ret a).
Proof. intros s. cbn. discriminate. Qed.

Lemma no_assert_raise {A} (e : Exn) : e <> AssertionError -> no_assert (@raise A e).
Proof. intros H s. cbn. congruence. Qed.

Lemma no_assert_bind {A B} (m : M A) (f : A -> M B) :
  no_assert m -> (forall a, no_assert (f a)) -> no_assert (bind m f).
Proof.
  intros Hm Hf s. unfold bind. specialize (Hm s).
  destruct (m s) as [[e | a] s']; cbn in *.
  - intros H. apply Hm. inversion H. reflexivity.
  - apply Hf.
Qed.

Lemma no_assert_mapM {A B} (f : A -> M B) (l : list A) :
  (forall a, no_assert (f a)) -> no_assert (mapM f l).
Proof.
  intros Hf. induction l as [| x r IH]; cbn [mapM].
  - apply no_assert_ret.
  - apply no_assert_bind; [apply Hf | intros y].
    apply no_assert_bind; [exact IH | intros ys; apply no_assert_ret].
Qed.

Lemma no_assert_foldM {A S} (f : S -> A -> M S) (l : list A) :
  (forall s a, no_assert (f s a)) -> forall s, no_assert (foldM f l s).
Proof.
  intros Hf. induction l as [| x r IH]; intros s; cbn [foldM].
  - apply no_assert_ret.
  - apply no_assert_bind; [apply Hf | exact IH].
Qed.

End PyFacts.

(** ** The class-id assertion of the target assigner *)

Module AssertFacts.

Import QAux Py PyFacts Assigner.
Local Open Scope Q_scope.

Lemma class_ids_ok_false (true_boxes : list (list TrueBox)) (num_classes : nat) :
  class_ids_ok true_boxes num_classes = false <->
  exists rows r, In rows true_boxes /\ In r rows /\ nat2Q num_classes <= class_id r.
Proof.
  unfold class_ids_ok. split.
  - intros H.
    assert (E : ~ forallb (forallb (fun r => Qltb (class_id r) (nat2Q num_classes)))
                   true_boxes = true) by congruence.
    rewrite forallb_forall in E.
    destruct (existsb (fun rows => negb (forallb (fun r => Qltb (class_id r) (nat2Q num_classes)) rows))
                true_boxes) eqn:X.
    + apply existsb_exists in X. destruct X as [rows [Hin Hneg]].
      apply negb_true_iff in Hneg.
      destruct (existsb (fun r => negb (Qltb (class_id r) (nat2Q num_classes))) rows) eqn:Y.
      * apply existsb_exists in Y. destruct Y as [r [Hr Hc]].
        apply negb_true_iff, Qltb_ge in Hc. exists rows, r. auto.
      * exfalso. assert (F : forallb (fun r => Qltb (class_id r) (nat2Q num_classes)) rows = true).
        { apply forallb_forall. intros r Hr.
          destruct (Qltb (class_id r) (nat2Q num_classes)) eqn:Z; [reflexivity |].
          assert (T : existsb (fun r => negb (Qltb (class_id r) (nat2Q num_classes))) rows = true).
          { apply existsb_exists. exists r. rewrite Z. auto. }
          congruence. }
        congruence.
    + exfalso. apply E. intros rows Hin.
      destruct (forallb (fun r => Qltb (class_id r) (nat2Q num_classes)) rows) eqn:Z;
        [reflexivity |].
      assert (T : existsb (fun rows => negb (forallb (fun r => Qltb (class_id r) (nat2Q num_classes)) rows))
                    true_boxes = true).
      { apply existsb_exists. exists rows. rewrite Z. auto. }
      congruence.
  - intros [rows [r [Hin [Hr Hc]]]].
    destruct (forallb _ true_boxes) eqn:E; [| reflexivity].
    rewrite forallb_forall in E. specialize (E rows Hin).
    rewrite forallb_forall in E. specialize (E r Hr).
    apply Qltb_lt in E. exfalso. apply (Qlt_not_le _ _ E Hc).
Qed.

Lemma no_assert_grid_shape input_shape l : no_assert (grid_shape input_shape l).
Proof.
  unfold grid_shape. destruct l as [| [| [| l]]]; cbn;
    try apply no_assert_ret.
  apply no_assert_raise. discriminate.
Qed.

Lemma no_assert_np_zeros m gh gw a ch : no_assert (np_zeros m gh gw a ch).
Proof. intros s. cbn. discriminate. Qed.

Lemma no_assert_apply_write grid_shapes num_classes y_true w :
  no_assert (apply_write grid_shapes num_classes y_true w).
Proof.
  unfold apply_write.
  destruct (py_index _ (w_row w)); [apply no_assert_raise; discriminate |].
  destruct (py_index _ (w_col w)); [apply no_assert_raise; discriminate |].
  destruct (py_index _ (5 + w_class w)); [apply no_assert_raise; discriminate |].
  apply no_assert_ret.
Qed.

Lemma argmax_not_assert l : argmax l <> inl AssertionError.
Proof. destruct l; cbn; discriminate. Qed.

Lemma best_anchor_not_assert anchors whs :
  best_anchor anchors whs <> inl AssertionError.
Proof.
  induction whs as [| wh r IH]; cbn; [discriminate |].
  pose proof (argmax_not_assert (iou_row anchors wh)) as Ha.
  destruct (argmax (iou_row anchors wh)) as [e | n];
    destruct (best_anchor anchors r) as [e' | ns]; congruence.
Qed.

Lemma no_assert_process_image anchors num_layers grid_shapes input_shape num_classes
    y_true brows :
  no_assert (process_image anchors num_layers grid_shapes input_shape num_classes
               y_true brows).
Proof.
  unfold process_image. destruct brows as [b rows].
  destruct (valid_wh rows) as [| wh whs]; [apply no_assert_ret |].
  pose proof (best_anchor_not_assert anchors (wh :: whs)) as Hb.
  destruct (best_anchor anchors (wh :: whs)) as [e | best].
  - apply no_assert_raise. congruence.
  - apply no_assert_foldM. intros. apply no_assert_apply_write.
Qed.

Lemma preprocess_checked_no_assert true_boxes input_shape anchors num_classes :
  class_ids_ok true_boxes num_classes = true ->
  no_assert (preprocess_true_boxes true_boxes input_shape anchors num_classes).
Proof.
  intros H. unfold preprocess_true_boxes. rewrite H.
  apply no_assert_bind; [apply no_assert_mapM; apply no_assert_grid_shape |].
  intros grid_shapes.
  apply no_assert_bind; [apply no_assert_mapM; intros; apply no_assert_np_zeros |].
  intros y_true. apply no_assert_foldM. intros.
  apply no_assert_process_image.
Qed.

Lemma preprocess_unchecked true_boxes input_shape anchors num_classes :
  class_ids_ok true_boxes num_classes = false ->
  run (preprocess_true_boxes true_boxes input_shape anchors num_classes)
  = (inl AssertionError, 0%nat).
Proof.
  intros H. unfold run, preprocess_true_boxes. rewrite H. reflexivity.
Qed.

(** C7: [preprocess_true_boxes] fails with the assertion error exactly when
    some ground-truth row has a class id of at least [num_classes]; when it
    does, no target array has been built. *)
Theorem C7_assertion_iff_bad_class_id :
  forall true_boxes input_shape anchors num_classes,
    let out := run (preprocess_true_boxes true_boxes input_shape anchors num_classes) in
    (fst out = inl AssertionError <->
     exists rows r, In rows true_boxes /\ In r rows /\ nat2Q num_classes <= class_id r)
    /\ (fst out = inl AssertionError -> snd out = 0%nat).
Proof.
  intros tb ishape anchors nc out. subst out.
  destruct (class_ids_ok tb nc) eqn:E.
  - pose proof (preprocess_checked_no_assert tb ishape anchors nc E 0%nat) as Hn.
    split.
    + split.
      * intros H. exfalso. exact (Hn H).
      * intros H. apply class_ids_ok_false in H. congruence.
    + intros H. exfalso. exact (Hn H).
  - rewrite (preprocess_unchecked tb ishape anchors nc E). cbn.
    split; [| reflexivity].
    split; [intros _; apply class_ids_ok_false; exact E | reflexivity].
Qed.

(** C10: the class-id assertion looks at every row, so a row that the
    validity filter would discard (non-positive width, e.g. a padding row)
    still makes the call fail when its class id is at least [num_classes]. *)
Theorem C10_degenerate_row_still_asserted :
  forall true_boxes input_shape anchors num_classes rows r,
    In rows true_boxes -> In r rows ->
    valid r = false ->
    nat2Q num_classes <= class_id r ->
    run (preprocess_true_boxes true_boxes input_shape anchors num_classes)
    = (inl AssertionError, 0%nat).
Proof.
  intros tb ishape anchors nc rows r Hrows Hr _ Hc.
  apply preprocess_unchecked. apply class_ids_ok_false.
  exists rows, r. auto.
Qed.

Lemma C10_witness :
  valid (mkTrueBox 0 0 0 0 5) = false /\
  run (preprocess_true_boxes [[mkTrueBox 10 10 20 20 1; mkTrueBox 0 0 0 0 5]]
         (416, 416)%nat [(10, 13); (16, 30); (33, 23)] 3)
  = (inl AssertionError, 0%nat).
Proof.
  split; [reflexivity |].
  apply (C10_degenerate_row_still_asserted
           [[mkTrueBox 10 10 20 20 1; mkTrueBox 0 0 0 0 5]] (416, 416)%nat
           [(10, 13); (16, 30); (33, 23)] 3
           [mkTrueBox 10 10 20 20 1; mkTrueBox 0 0 0 0 5] (mkTrueBox 0 0 0 0 5)).
  - left. reflexivity.
  - right. left. reflexivity.
  - reflexivity.
  - unfold nat2Q. cbn. unfold Qle. cbn. lia.
Defined.

End AssertFacts.

(** ** Corner form and centre form *)

Module Geometry.

Import QAux Assigner.
Local Open Scope Q_scope.

(** Centre form to corner form, as [box_iou], [yolo_correct_boxes] and the
    anchor matching all write it: [mins = xy - wh / 2], [maxes = xy + wh / 2]. *)
Definition to_corners (xy wh : Q * Q) : (Q * Q) * (Q * Q) :=
  let wh_half := (fst wh / 2, snd wh / 2) in
  ((fst xy - fst wh_half, snd xy - snd wh_half),
   (fst xy + fst wh_half, snd xy + snd wh_half)).

(** Corner form to centre form and back, with the target assigner's
    [boxes_xy] and [boxes_wh]. *)
Definition round_trip (r : TrueBox) : (Q * Q) * (Q * Q) :=
  to_corners (boxes_xy r) (boxes_wh r).

(** What the floor division drops from the midpoint of [a] and [b]. *)
Definition mid_frac (a b : Q) : Q := (a + b) / 2 - floor_div2 (a + b).

(** Halving is multiplication by a constant, which linear arithmetic
    understands. *)
Ltac halves := unfold Qdiv in *; change (/ 2) with (1 # 2) in *.

Lemma mid_frac_range a b : 0 <= mid_frac a b /\ mid_frac a b < 1.
Proof.
  unfold mid_frac, floor_div2.
  pose proof (Qfloor_le ((a + b) / 2)) as Hl.
  pose proof (Qlt_floor ((a + b) / 2)) as Hu.
  rewrite inject_Z_plus in Hu. change (inject_Z 1) with 1 in Hu.
  set (f := inject_Z (Qfloor ((a + b) / 2))) in *. clearbody f.
  halves. split; lra.
Qed.

(** C3 (as stated) fails: the corners [(0, 0, 3, 3)] come back as
    [(-1/2, -1/2, 5/2, 5/2)]. *)
Lemma C3_counterexample :
  let r := mkTrueBox 0 0 3 3 0 in
  boxes_xy r = (1, 1) /\
  ~ (fst (fst (round_trip r)) == x_min r) /\
  fst (fst (round_trip r)) == - (1 # 2) /\
  fst (snd (round_trip r)) == 5 # 2.
Proof.
  cbv zeta. repeat split; try reflexivity.
  vm_compute. discriminate.
Qed.

(** C3 (amended): the centre is the floor of the midpoint and the size is
    exact, so converting back shifts both corners of an axis down by the
    fractional part of the midpoint, a value in [0, 1); the size is
    recovered exactly, and the corners are recovered exactly when and only
    when the midpoint is an integer. *)
Theorem C3_round_trip_up_to_floor :
  forall r : TrueBox,
    let c := round_trip r in
    let dx := mid_frac (x_min r) (x_max r) in
    let dy := mid_frac (y_min r) (y_max r) in
    fst (fst c) == x_min r - dx /\ snd (fst c) == y_min r - dy /\
    fst (snd c) == x_max r - dx /\ snd (snd c) == y_max r - dy /\
    fst (snd c) - fst (fst c) == x_max r - x_min r /\
    snd (snd c) - snd (fst c) == y_max r - y_min r /\
    0 <= dx /\ dx < 1 /\ 0 <= dy /\ dy < 1 /\
    (fst (fst c) == x_min r <-> dx == 0) /\
    (snd (fst c) == y_min r <-> dy == 0).
Proof.
  intros r c dx dy. subst c dx dy.
  destruct (mid_frac_range (x_min r) (x_max r)) as [Hx0 Hx1].
  destruct (mid_frac_range (y_min r) (y_max r)) as [Hy0 Hy1].
  unfold round_trip, to_corners, boxes_xy, boxes_wh, mid_frac in *.
  cbn [fst snd].
  set (fx := floor_div2 (x_min r + x_max r)) in *.
  set (fy := floor_div2 (y_min r + y_max r)) in *.
  clearbody fx fy. halves.
  repeat (apply conj); try lra; split; intros H; lra.
Qed.

End Geometry.

(** ** Anchor matching and the writes of the per-image loop *)

Module AssignFacts.

Import QAux Py Assigner.
Local Open Scope Q_scope.

(** The value of [np.argmax] on a non-empty row. *)
Definition first_argmax (l : list Q) : nat :=
  match l with
  | [] => 0%nat
  | x :: r => argmax_from x 0 1 r
  end.


(** The write of [row] at scale [l], anchor slot [k]. *)
Definition cell_write (grid_shapes : list (nat * nat)) (l b : nat) (row : TrueBox)
    (k : nat) : Write :=
  {| w_layer := l;
     w_image := b;
     w_row := Qfloor (y_min row * nat2Q (fst (nth l grid_shapes (0, 0)%nat)));
     w_col := Qfloor (x_min row * nat2Q (snd (nth l grid_shapes (0, 0)%nat)));
     w_slot := k;
     w_class := Qtrunc (class_id row);
     w_box := row |}.

(** Reading [y_true[l][b, j, i, k, ch]]. *)
Definition get (y_true : list Tensor5) (l b j i k ch : nat) : Q :=
  nth ch (nth k (nth i (nth j (nth b (nth l y_true []) []) []) []) []) 0.

(** Rows of positive width first, then rows of non-positive width: the
    layout [get_random_data] produces by zero-padding at the end. *)
Definition valid_first (vs pad : list TrueBox) : Prop :=
  Forall (fun r => valid r = true) vs /\ Forall (fun r => valid r = false) pad.

Lemma filter_all {A} (f : A -> bool) (l : list A) :
  Forall (fun x => f x = true) l -> filter f l = l.
Proof.
  induction 1 as [| x l Hx _ IH]; cbn; [reflexivity |].
  rewrite Hx, IH. reflexivity.
Qed.

Lemma filter_none {A} (f : A -> bool) (l : list A) :
  Forall (fun x => f x = false) l -> filter f l = [].
Proof.
  induction 1 as [| x l Hx _ IH]; cbn; [reflexivity |].
  rewrite Hx, IH. reflexivity.
Qed.

Lemma valid_wh_padded vs pad :
  valid_first vs pad -> valid_wh (vs ++ pad) = map boxes_wh vs.
Proof.
  intros [Hv Hp]. unfold valid_wh.
  rewrite filter_app, (filter_all _ _ Hv), (filter_none _ _ Hp), app_nil_r.
  reflexivity.
Qed.

(** A row of non-positive width never reaches the anchor matching,
    wherever it stands. *)
Lemma valid_wh_drop pre r post :
  valid r = false -> valid_wh (pre ++ r :: post) = valid_wh (pre ++ post).
Proof.
  intros H. unfold valid_wh. rewrite !filter_app. cbn [filter]. rewrite H.
  reflexivity.
Qed.

Lemma best_anchor_length anchors whs best :
  best_anchor anchors whs = inr best -> length best = length whs.
Proof.
  revert best. induction whs as [| wh r IH]; intros best H; cbn in H.
  - inversion H. reflexivity.
  - destruct (argmax (iou_row anchors wh)) as [e | n];
      destruct (best_anchor anchors r) as [e' | ns]; try discriminate.
    inversion H. cbn. f_equal. apply IH. reflexivity.
Qed.

Lemma best_anchor_map anchors whs :
  anchors <> [] ->
  best_anchor anchors whs
  = inr (map (fun wh => first_argmax (iou_row anchors wh)) whs).
Proof.
  intros Hne. induction whs as [| wh r IH]; cbn; [reflexivity |].
  rewrite IH. unfold iou_row at 1, first_argmax.
  destruct anchors as [| a anchors']; [congruence |]. cbn. reflexivity.
Qed.

(** The loop reads row [t] of the whole array for the [t]-th entry of
    [best_anchor]; as long as it has no more entries than there are leading
    rows [xs], these are the rows it reads. *)
Lemma aligned_reads {B} (F : TrueBox -> nat -> list B) (post : list TrueBox) :
  forall (xs : list TrueBox) (ns : list nat) (pre : list TrueBox),
    (length ns <= length xs)%nat ->
    flat_map (fun tn => F (nth (fst tn) (pre ++ xs ++ post) dummy_row) (snd tn))
             (combine (seq (length pre) (length ns)) ns)
    = flat_map (fun xn => F (fst xn) (snd xn)) (combine xs ns).
Proof.
  induction xs as [| x xs IH]; intros ns pre Hlen.
  - destruct ns; [reflexivity | cbn in Hlen; lia].
  - destruct ns as [| n ns]; [reflexivity |].
    cbn [length seq combine flat_map fst snd].
    rewrite app_nth2 by lia. rewrite Nat.sub_diag. cbn [app nth].
    f_equal.
    specialize (IH ns (pre ++ [x])).
    rewrite length_app in IH. cbn [length] in IH.
    rewrite Nat.add_1_r in IH. rewrite <- app_assoc in IH. cbn [app] in IH.
    apply IH. cbn in Hlen. lia.
Qed.

Lemma image_writes_aligned num_layers grid_shapes b input_shape vs pad best :
  (length best <= length vs)%nat ->
  image_writes num_layers grid_shapes b (map (normalize input_shape) (vs ++ pad)) best
  = flat_map (fun xn => box_writes num_layers grid_shapes b (fst xn) (snd xn))
             (combine (map (normalize input_shape) vs) best).
Proof.
  intros Hlen. unfold image_writes. rewrite map_app.
  apply (aligned_reads (box_writes num_layers grid_shapes b)
           (map (normalize input_shape) pad)
           (map (normalize input_shape) vs) best []).
  rewrite length_map. exact Hlen.
Qed.







(** For a box and an anchor of positive width and height the divisor of
    the shape IoU is positive: the rational division stands for the float
    division there. *)
Lemma shape_iou_union_positive (wh anchor : Q * Q) :
  0 < fst wh -> 0 < snd wh -> 0 < fst anchor -> 0 < snd anchor ->
  let iw := Qmax (Qmin (fst wh / 2) (fst anchor / 2)
                  - Qmax (- (fst wh / 2)) (- (fst anchor / 2))) 0 in
  let ih := Qmax (Qmin (snd wh / 2) (snd anchor / 2)
                  - Qmax (- (snd wh / 2)) (- (snd anchor / 2))) 0 in
  0 < fst wh * snd wh + fst anchor * snd anchor - iw * ih /\
  shape_iou wh anchor
  = iw * ih / (fst wh * snd wh + fst anchor * snd anchor - iw * ih).
Proof.
  intros Hw Hh Haw Hah iw ih. split; [| reflexivity].
  assert (Hiw : 0 <= iw /\ iw <= fst wh).
  { subst iw.
    pose proof (Qmin_lb_l (fst wh / 2) (fst anchor / 2)) as H1.
    pose proof (Qmax_ub_l (- (fst wh / 2)) (- (fst anchor / 2))) as H2.
    set (a := Qmin (fst wh / 2) (fst anchor / 2)) in *.
    set (b := Qmax (- (fst wh / 2)) (- (fst anchor / 2))) in *.
    pose proof (Qmax_ub_r (a - b) 0) as H3.
    destruct (Qmax_case (a - b) 0) as [E | E]; rewrite E in *;
      unfold Qdiv in *; change (/ 2) with (1 # 2) in *; split; lra. }
  assert (Hih : 0 <= ih /\ ih <= snd wh).
  { subst ih.
    pose proof (Qmin_lb_l (snd wh / 2) (snd anchor / 2)) as H1.
    pose proof (Qmax_ub_l (- (snd wh / 2)) (- (snd anchor / 2))) as H2.
    set (a := Qmin (snd wh / 2) (snd anchor / 2)) in *.
    set (b := Qmax (- (snd wh / 2)) (- (snd anchor / 2))) in *.
    pose proof (Qmax_ub_r (a - b) 0) as H3.
    destruct (Qmax_case (a - b) 0) as [E | E]; rewrite E in *;
      unfold Qdiv in *; change (/ 2) with (1 # 2) in *; split; lra. }
  clearbody iw ih. destruct Hiw as [Hi0 Hi1]. destruct Hih as [Hj0 Hj1].
  assert (Hprod : iw * ih <= fst wh * snd wh) by nra.
  assert (Hanchor : 0 < fst anchor * snd anchor) by nra.
  lra.
Qed.

(** The anchor sets shipped with the models. *)
Definition yolo_anchors : list (Q * Q) :=
  [(10, 13); (16, 30); (33, 23); (30, 61); (62, 45); (59, 119);
   (116, 90); (156, 198); (373, 326)].





End AssignFacts.

(** ** Rows of non-positive width *)

Module DropFacts.

Import QAux Py Assigner AssignFacts.
Local Open Scope Q_scope.

Lemma valid_wh_all vs :
  Forall (fun r => valid r = true) vs -> valid_wh vs = map boxes_wh vs.
Proof.
  intros H. unfold valid_wh. rewrite (filter_all _ _ H). reflexivity.
Qed.

Lemma image_writes_unpadded num_layers grid_shapes b input_shape vs best :
  (length best <= length vs)%nat ->
  image_writes num_layers grid_shapes b (map (normalize input_shape) vs) best
  = flat_map (fun xn => box_writes num_layers grid_shapes b (fst xn) (snd xn))
             (combine (map (normalize input_shape) vs) best).
Proof.
  intros H.
  pose proof (image_writes_aligned num_layers grid_shapes b input_shape vs [] best H) as E.
  rewrite app_nil_r in E. exact E.
Qed.

(** Trailing rows of non-positive width change nothing in the processing
    of an image. *)
Lemma process_image_padded anchors num_layers grid_shapes input_shape num_classes
    y_true b vs pad :
  valid_first vs pad ->
  process_image anchors num_layers grid_shapes input_shape num_classes y_true
    (b, vs ++ pad)
  = process_image anchors num_layers grid_shapes input_shape num_classes y_true
      (b, vs).
Proof.
  intros Hvf. unfold process_image.
  rewrite (valid_wh_padded _ _ Hvf), (valid_wh_all _ (proj1 Hvf)).
  destruct (map boxes_wh vs) as [| wh whs] eqn:Ewh; [reflexivity |].
  destruct (best_anchor anchors (wh :: whs)) as [e | best] eqn:Eb; [reflexivity |].
  apply best_anchor_length in Eb.
  assert (Hlen : (length best <= length vs)%nat).
  { rewrite Eb, <- Ewh, length_map. lia. }
  rewrite (image_writes_aligned _ _ _ _ _ _ _ Hlen).
  rewrite (image_writes_unpadded _ _ _ _ _ _ Hlen).
  reflexivity.
Qed.

Definition padded (vp : list TrueBox * list TrueBox) : list TrueBox :=
  fst vp ++ snd vp.

(** What is asked of an image and of the rows appended to it. *)
Definition padding_ok (num_classes : nat) (vp : list TrueBox * list TrueBox) : Prop :=
  valid_first (fst vp) (snd vp) /\
  Forall (fun r => class_id r < nat2Q num_classes) (snd vp).

Lemma class_ids_ok_padded num_classes imgs :
  Forall (padding_ok num_classes) imgs ->
  class_ids_ok (map padded imgs) num_classes
  = class_ids_ok (map fst imgs) num_classes.
Proof.
  unfold class_ids_ok.
  induction 1 as [| vp imgs [_ Hc] _ IH]; cbn [map forallb]; [reflexivity |].
  rewrite IH. f_equal. unfold padded. rewrite forallb_app.
  assert (E : forallb (fun r => Qltb (class_id r) (nat2Q num_classes)) (snd vp) = true).
  { apply forallb_forall. intros r Hr. apply Qltb_lt.
    rewrite Forall_forall in Hc. apply Hc. exact Hr. }
  rewrite E. apply andb_true_r.
Qed.

Lemma foldM_process_padded anchors num_layers grid_shapes input_shape num_classes imgs :
  Forall (padding_ok num_classes) imgs ->
  forall k y_true st,
    foldM (process_image anchors num_layers grid_shapes input_shape num_classes)
          (combine (seq k (length imgs)) (map padded imgs)) y_true st
    = foldM (process_image anchors num_layers grid_shapes input_shape num_classes)
            (combine (seq k (length imgs)) (map fst imgs)) y_true st.
Proof.
  induction 1 as [| vp imgs [Hvf _] _ IH]; intros k y_true st; [reflexivity |].
  cbn [length seq map combine foldM]. unfold bind. unfold padded at 1.
  rewrite (process_image_padded _ _ _ _ _ _ _ _ _ Hvf).
  destruct (process_image anchors num_layers grid_shapes input_shape num_classes
              y_true (k, fst vp) st) as [[e | y'] st']; [reflexivity |].
  apply IH.
Qed.

(** C6 (as stated) fails: a box of positive width and zero height passes
    the width-only filter; with the nine anchors it is matched and written
    (objectness 1 at scale 2, cell (1, 1), slot 0). *)
Lemma C6_counterexample :
  let flat := mkTrueBox 10 10 20 10 1 in
  snd (boxes_wh flat) <= 0 /\ valid flat = true /\
  exists y,
    run (preprocess_true_boxes [[flat]] (32, 32)%nat yolo_anchors 2) = (inr y, 3%nat) /\
    get y 2 0 1 1 0 4 = 1 /\ get y 2 0 1 1 0 6 = 1.
Proof.
  cbv zeta. split; [vm_compute; discriminate |].
  split; [reflexivity |].
  eexists. repeat (apply conj); vm_compute; reflexivity.
Qed.

(** A row of non-positive width standing before a valid one is not skipped
    by the write loop: row 0 is written, with the anchor matched to row 1. *)
Lemma leading_zero_row_is_written :
  let zero := mkTrueBox 0 0 0 0 0 in
  let box := mkTrueBox 10 10 20 22 1 in
  valid zero = false /\ valid box = true /\
  exists best,
    best_anchor yolo_anchors (valid_wh [zero; box]) = inr best /\
    image_writes 3 [(1, 1); (2, 2); (4, 4)]%nat 0
      (map (normalize (32, 32)%nat) [zero; box]) best
    = [cell_write [(1, 1); (2, 2); (4, 4)]%nat 2 0 (normalize (32, 32)%nat zero) 0].
Proof.
  cbv zeta. split; [reflexivity |]. split; [reflexivity |].
  eexists. split; vm_compute; reflexivity.
Qed.

(** C6 (amended): the filter looks at the width only.  A row of
    non-positive width never enters the anchor matching, and rows of
    non-positive width that follow the rows of positive width contribute
    nothing: the call returns what it returns without them (their class ids
    still have to pass the assertion). *)
Theorem C6_nonpositive_width_rows_dropped :
  forall input_shape anchors num_classes (imgs : list (list TrueBox * list TrueBox)),
    Forall (padding_ok num_classes) imgs ->
    (forall pre r post,
        valid r = false -> valid_wh (pre ++ r :: post) = valid_wh (pre ++ post)) /\
    run (preprocess_true_boxes (map padded imgs) input_shape anchors num_classes)
    = run (preprocess_true_boxes (map fst imgs) input_shape anchors num_classes).
Proof.
  intros input_shape anchors num_classes imgs Himgs.
  split; [intros pre r post; apply valid_wh_drop |].
  unfold run, preprocess_true_boxes.
  rewrite (class_ids_ok_padded _ _ Himgs), !length_map.
  destruct (class_ids_ok (map fst imgs) num_classes); [| reflexivity].
  unfold bind.
  destruct (mapM (grid_shape input_shape) (seq 0 (length anchors / 3)) 0%nat)
    as [[e | grid_shapes] st]; [reflexivity |].
  destruct (mapM _ (seq 0 (length anchors / 3)) st) as [[e | y_true] st'];
    [reflexivity |].
  apply foldM_process_padded. exact Himgs.
Qed.

Lemma C6_witness :
  let imgs := [([mkTrueBox 100 100 140 160 2], [mkTrueBox 0 0 0 0 0; mkTrueBox 5 5 5 9 1])] in
  Forall (padding_ok 3) imgs /\
  run (preprocess_true_boxes (map padded imgs) (416, 416)%nat yolo_anchors 3)
  = run (preprocess_true_boxes (map fst imgs) (416, 416)%nat yolo_anchors 3).
Proof.
  cbv zeta.
  assert (H : Forall (padding_ok 3)
                [([mkTrueBox 100 100 140 160 2],
                  [mkTrueBox 0 0 0 0 0; mkTrueBox 5 5 5 9 1])]).
  { constructor; [| constructor]. split.
    - split; repeat constructor.
    - repeat constructor. }
  split; [exact H |].
  exact (proj2 (C6_nonpositive_width_rows_dropped (416, 416)%nat yolo_anchors 3 _ H)).
Defined.

End DropFacts.

(** ** Letterbox correction: [yolo_correct_boxes] (yolo3/model.py) *)

Module Correct.

Import QAux.
Local Open Scope Q_scope.

(** One row of the result: [y_min, x_min, y_max, x_max]. *)
Record Box : Type := mkBox { b_ymin : Q; b_xmin : Q; b_ymax : Q; b_xmax : Q }.

(** [new_shape = K.round(image_shape * K.min(input_shape / image_shape))];
    shapes are [(h, w)], already cast to floats. *)
Definition new_shape (input_shape image_shape : Q * Q) : Q * Q :=
  let ratio := Qmin (fst input_shape / fst image_shape)
                    (snd input_shape / snd image_shape) in
  (inject_Z (round_half_even (fst image_shape * ratio)),
   inject_Z (round_half_even (snd image_shape * ratio))).


(** [scale = input_shape / new_shape] *)
Definition scale (input_shape image_shape : Q * Q) : Q * Q :=
  let ns := new_shape input_shape image_shape in
  (fst input_shape / fst ns, snd input_shape / snd ns).








End Correct.

(** ** Detection filter: [yolo_eval] (yolo3/model.py) and the [YOLO] wrapper *)

Module Filter.

Import QAux Correct.
Local Open Scope Q_scope.

(** Modelled from the spec: [tf.image.non_max_suppression] is TensorFlow
    library code, not part of the repository.  Section 4.1 gives the overlap
    measure (product of the clamped-to-zero overlap extents over area A +
    area B - intersection, a zero union counting as IoU 0), here on the
    corner-form rows [y_min, x_min, y_max, x_max] the filter holds. *)
Definition corner_iou (a b : Box) : Q :=
  let ih := Qmax (Qmin (b_ymax a) (b_ymax b) - Qmax (b_ymin a) (b_ymin b)) 0 in
  let iw := Qmax (Qmin (b_xmax a) (b_xmax b) - Qmax (b_xmin a) (b_xmin b)) 0 in
  let inter := ih * iw in
  let area_a := (b_ymax a - b_ymin a) * (b_xmax a - b_xmin a) in
  let area_b := (b_ymax b - b_ymin b) * (b_xmax b - b_xmin b) in
  let union := area_a + area_b - inter in
  if Qeq_bool union 0 then 0 else inter / union.

Definition zero_box : Box := mkBox 0 0 0 0.

(** Candidate indices by descending score, the lower index first among
    equal scores. *)
Fixpoint insert_desc (scores : list Q) (i : nat) (l : list nat) : list nat :=
  match l with
  | [] => [i]
  | j :: r => if Qltb (nth i scores 0) (nth j scores 0)
              then j :: insert_desc scores i r
              else i :: j :: r
  end.

Definition sort_desc (scores : list Q) : list nat :=
  fold_right (insert_desc scores) [] (seq 0 (length scores)).

(** A candidate is kept when its IoU with every box kept so far does not
    exceed the threshold. *)
Definition compatible (boxes : list Box) (iou_threshold : Q) (selected : list nat)
    (i : nat) : bool :=
  forallb (fun s => negb (Qltb iou_threshold
                            (corner_iou (nth i boxes zero_box) (nth s boxes zero_box))))
          selected.

Fixpoint nms_loop (boxes : list Box) (iou_threshold : Q) (max_output_size : nat)
    (candidates selected : list nat) : list nat :=
  match candidates with
  | [] => selected
  | i :: rest =>
      if (length selected <? max_output_size)%nat then
        if compatible boxes iou_threshold selected i
        then nms_loop boxes iou_threshold max_output_size rest (selected ++ [i])
        else nms_loop boxes iou_threshold max_output_size rest selected
      else selected
  end.

(** Modelled from the spec: greedy non-max suppression as section 4.3
    describes it (sort by score descending, keep the best remaining box,
    discard those whose IoU with it exceeds the threshold, stop at the cap or
    when the candidates are exhausted).  The result is the list of kept
    indices into [boxes], as [tf.image.non_max_suppression] returns it. *)
Definition non_max_suppression (boxes : list Box) (scores : list Q)
    (max_output_size : nat) (iou_threshold : Q) : list nat :=
  nms_loop boxes iou_threshold max_output_size (sort_desc scores) [].

(** [tf.boolean_mask] and [K.gather] on a leading axis. *)
Definition boolean_mask {A} (l : list A) (mask : list bool) : list A :=
  map fst (filter snd (combine l mask)).

Definition gather {A} (d : A) (l : list A) (indices : list nat) : list A :=
  map (fun i => nth i l d) indices.

(** What [yolo_head] and [yolo_correct_boxes] yield for one candidate of a
    layer: the corrected box, the objectness and the class probabilities. *)
Record Candidate : Type := mkCandidate
  { c_box : Box; c_confidence : Q; c_class_probs : list Q }.

(** [yolo_boxes_and_scores]: [box_scores = box_confidence * box_class_probs]. *)
Definition yolo_boxes_and_scores (layer : list Candidate) : list Box * list (list Q) :=
  (map c_box layer,
   map (fun c => map (Qmult (c_confidence c)) (c_class_probs c)) layer).

(** A keyword argument with a default value. *)
Definition kwarg {A} (given : option A) (default : A) : A :=
  match given with
  | Some v => v
  | None => default
  end.

(** The body of [for c in range(num_classes)]. *)
Definition class_detections (boxes : list Box) (box_scores : list (list Q))
    (max_boxes : nat) (score_threshold iou_threshold : Q) (c : nat)
    : list Box * list Q * list nat :=
  let mask_c := map (fun row => negb (Qltb (nth c row 0) score_threshold)) box_scores in
  let class_boxes := boolean_mask boxes mask_c in
  let class_box_scores := boolean_mask (map (fun row => nth c row 0) box_scores) mask_c in
  let nms_index := non_max_suppression class_boxes class_box_scores max_boxes
                     iou_threshold in
  (gather zero_box class_boxes nms_index,
   gather 0 class_box_scores nms_index,
   map (fun _ => c) nms_index).

(** [yolo_eval], from the decoded candidates of each layer on.
    [def yolo_eval(..., max_boxes=20, score_threshold=.6, iou_threshold=.5)] *)
Definition yolo_eval (yolo_outputs : list (list Candidate)) (num_classes : nat)
    (max_boxes : option nat) (score_threshold iou_threshold : option Q)
    : list Box * list Q * list nat :=
  let max_boxes := kwarg max_boxes 20%nat in
  let score_threshold := kwarg score_threshold (6 # 10) in
  let iou_threshold := kwarg iou_threshold (5 # 10) in
  let per_layer := map yolo_boxes_and_scores yolo_outputs in
  let boxes := concat (map fst per_layer) in
  let box_scores := concat (map snd per_layer) in
  let per_class := map (class_detections boxes box_scores max_boxes
                          score_threshold iou_threshold)
                       (seq 0 num_classes) in
  (concat (map (fun d => fst (fst d)) per_class),
   concat (map (fun d => snd (fst d)) per_class),
   concat (map snd per_class)).

(** [keras_yolo3/yolo.py]: the constructor's [score=0.3, iou=0.45] and the
    same values in [_DEFAULT_PARAMS]. *)
Record YOLO : Type := mkYOLO { score : Q; iou : Q }.

Definition DEFAULT_PARAMS_score : Q := 3 # 10.
Definition DEFAULT_PARAMS_iou : Q := 45 # 100.

Definition YOLO_init (score iou : option Q) : YOLO :=
  {| score := kwarg score (3 # 10); iou := kwarg iou (45 # 100) |}.

(** [YOLO._create_model]: the call
    [yolo_eval(..., score_threshold=self.score, iou_threshold=self.iou)]. *)
Definition YOLO_create_model (self : YOLO) (yolo_outputs : list (list Candidate))
    (num_classes : nat) : list Box * list Q * list nat :=
  yolo_eval yolo_outputs num_classes None (Some (score self)) (Some (iou self)).

End Filter.

(** ** Greedy suppression keeps compatible boxes, at most the cap *)

Module NmsFacts.

Import QAux Correct Filter.
Local Open Scope Q_scope.

Lemma Qmax_spec x y : (x <= y /\ Qmax x y == y) \/ (y <= x /\ Qmax x y == x).
Proof.
  unfold Qmax. destruct (Qltb x y) eqn:E.
  - apply Qltb_lt in E. left. split; [lra | reflexivity].
  - apply Qltb_ge in E. right. split; [exact E | reflexivity].
Qed.

Lemma Qmin_spec x y : (x <= y /\ Qmin x y == x) \/ (y <= x /\ Qmin x y == y).
Proof.
  unfold Qmin. destruct (Qltb y x) eqn:E.
  - apply Qltb_lt in E. right. split; [lra | reflexivity].
  - apply Qltb_ge in E. left. split; [exact E | reflexivity].
Qed.

Lemma Qmax_compat x x' y y' : x == x' -> y == y' -> Qmax x y == Qmax x' y'.
Proof.
  intros Hx Hy.
  destruct (Qmax_spec x y) as [[H1 E1] | [H1 E1]];
    destruct (Qmax_spec x' y') as [[H2 E2] | [H2 E2]]; lra.
Qed.

Lemma Qmin_compat x x' y y' : x == x' -> y == y' -> Qmin x y == Qmin x' y'.
Proof.
  intros Hx Hy.
  destruct (Qmin_spec x y) as [[H1 E1] | [H1 E1]];
    destruct (Qmin_spec x' y') as [[H2 E2] | [H2 E2]]; lra.
Qed.

Lemma Qmax_comm x y : Qmax x y == Qmax y x.
Proof.
  destruct (Qmax_spec x y) as [[H1 E1] | [H1 E1]];
    destruct (Qmax_spec y x) as [[H2 E2] | [H2 E2]]; lra.
Qed.

Lemma Qmin_comm x y : Qmin x y == Qmin y x.
Proof.
  destruct (Qmin_spec x y) as [[H1 E1] | [H1 E1]];
    destruct (Qmin_spec y x) as [[H2 E2] | [H2 E2]]; lra.
Qed.

Lemma Qeq_bool_compat x y : x == y -> Qeq_bool x 0 = Qeq_bool y 0.
Proof.
  intros H. destruct (Qeq_bool y 0) eqn:E.
  - apply Qeq_bool_iff in E. apply Qeq_bool_iff. lra.
  - destruct (Qeq_bool x 0) eqn:F; [| reflexivity].
    apply Qeq_bool_iff in F. apply Qeq_bool_neq in E. exfalso. apply E. lra.
Qed.

(** The overlap measure does not depend on the order of the two boxes. *)
Lemma corner_iou_sym a b : corner_iou a b == corner_iou b a.
Proof.
  unfold corner_iou.
  set (ih := Qmax (Qmin (b_ymax a) (b_ymax b) - Qmax (b_ymin a) (b_ymin b)) 0).
  set (iw := Qmax (Qmin (b_xmax a) (b_xmax b) - Qmax (b_xmin a) (b_xmin b)) 0).
  set (ih' := Qmax (Qmin (b_ymax b) (b_ymax a) - Qmax (b_ymin b) (b_ymin a)) 0).
  set (iw' := Qmax (Qmin (b_xmax b) (b_xmax a) - Qmax (b_xmin b) (b_xmin a)) 0).
  assert (Eh : ih == ih').
  { subst ih ih'. apply Qmax_compat; [| reflexivity].
    rewrite (Qmin_comm (b_ymax a)), (Qmax_comm (b_ymin a)). reflexivity. }
  assert (Ew : iw == iw').
  { subst iw iw'. apply Qmax_compat; [| reflexivity].
    rewrite (Qmin_comm (b_xmax a)), (Qmax_comm (b_xmin a)). reflexivity. }
  clearbody ih iw ih' iw'.
  set (A := (b_ymax a - b_ymin a) * (b_xmax a - b_xmin a)).
  set (B := (b_ymax b - b_ymin b) * (b_xmax b - b_xmin b)).
  clearbody A B.
  assert (Ei : ih * iw == ih' * iw') by (rewrite Eh, Ew; reflexivity).
  assert (Eu : A + B - ih * iw == B + A - ih' * iw') by (rewrite Ei; ring).
  rewrite (Qeq_bool_compat _ _ Eu).
  destruct (Qeq_bool (B + A - ih' * iw') 0); [reflexivity |].
  rewrite Eu, Ei. reflexivity.
Qed.

(** [later] may join [earlier] in the result. *)
Definition apart (boxes : list Box) (iou_threshold : Q) (earlier later : nat) : Prop :=
  corner_iou (nth later boxes zero_box) (nth earlier boxes zero_box) <= iou_threshold.

Lemma compatible_apart boxes thr selected i :
  compatible boxes thr selected i = true ->
  Forall (fun s => apart boxes thr s i) selected.
Proof.
  unfold compatible. intros H. rewrite forallb_forall in H.
  apply Forall_forall. intros s Hs. specialize (H s Hs).
  apply negb_true_iff, Qltb_ge in H. exact H.
Qed.

Lemma ForallOrdPairs_snoc {A} (R : A -> A -> Prop) (l : list A) (x : A) :
  ForallOrdPairs R l -> Forall (fun y => R y x) l -> ForallOrdPairs R (l ++ [x]).
Proof.
  induction 1 as [| y l Hy Hl IH]; intros Hx; cbn.
  - constructor; constructor.
  - inversion Hx; subst. constructor.
    + apply Forall_app. split; [exact Hy | constructor; [assumption | constructor]].
    + apply IH. assumption.
Qed.

Lemma ForallOrdPairs_app {A} (R : A -> A -> Prop) (l1 l2 : list A) :
  ForallOrdPairs R l1 -> ForallOrdPairs R l2 ->
  (forall x y, In x l1 -> In y l2 -> R x y) ->
  ForallOrdPairs R (l1 ++ l2).
Proof.
  induction 1 as [| x l1 Hx Hl IH]; intros H2 Hc; cbn; [exact H2 |].
  constructor.
  - apply Forall_app. split; [exact Hx |].
    apply Forall_forall. intros y Hy. apply Hc; [left; reflexivity | exact Hy].
  - apply IH; [exact H2 |]. intros x' y Hx' Hy. apply Hc; [right |]; assumption.
Qed.

Lemma ForallOrdPairs_map {A B} (f : A -> B) (R : B -> B -> Prop) (l : list A) :
  ForallOrdPairs (fun x y => R (f x) (f y)) l -> ForallOrdPairs R (map f l).
Proof.
  induction 1 as [| x l Hx Hl IH]; cbn; constructor.
  - apply Forall_map. exact Hx.
  - exact IH.
Qed.

Lemma ForallOrdPairs_impl_in {A} (R R' : A -> A -> Prop) (l : list A) :
  (forall x y, In x l -> In y l -> R x y -> R' x y) ->
  ForallOrdPairs R l -> ForallOrdPairs R' l.
Proof.
  intros H HR. induction HR as [| x l Hx Hl IH]; constructor.
  - rewrite Forall_forall in *. intros y Hy.
    apply H; [left; reflexivity | right; exact Hy | apply Hx; exact Hy].
  - apply IH. intros a b Ha Hb. apply H; right; assumption.
Qed.

(** The invariant of the selection loop. *)
Definition selection_ok (boxes : list Box) (thr : Q) (max_output_size bound : nat)
    (selected : list nat) : Prop :=
  (length selected <= max_output_size)%nat /\
  ForallOrdPairs (apart boxes thr) selected /\
  Forall (fun i => (i < bound)%nat) selected.

Lemma nms_loop_ok boxes thr max_output_size bound :
  forall candidates selected,
    Forall (fun i => (i < bound)%nat) candidates ->
    selection_ok boxes thr max_output_size bound selected ->
    selection_ok boxes thr max_output_size bound
      (nms_loop boxes thr max_output_size candidates selected).
Proof.
  induction candidates as [| i rest IH]; intros selected Hc Hs; cbn [nms_loop];
    [exact Hs |].
  inversion Hc as [| ? ? Hi Hrest]; subst.
  destruct (length selected <? max_output_size)%nat eqn:L; [| exact Hs].
  apply Nat.ltb_lt in L.
  destruct (compatible boxes thr selected i) eqn:C.
  - apply IH; [exact Hrest |].
    destruct Hs as [Hlen [Hp Hb]]. repeat split.
    + rewrite length_app. cbn. lia.
    + apply ForallOrdPairs_snoc; [exact Hp | apply compatible_apart; exact C].
    + apply Forall_app. split; [exact Hb | constructor; [exact Hi | constructor]].
  - apply IH; assumption.
Qed.

Lemma insert_desc_bound scores bound i l :
  (i < bound)%nat -> Forall (fun j => (j < bound)%nat) l ->
  Forall (fun j => (j < bound)%nat) (insert_desc scores i l).
Proof.
  intros Hi. induction 1 as [| j r Hj Hr IH]; cbn.
  - constructor; [exact Hi | constructor].
  - destruct (Qltb (nth i scores 0) (nth j scores 0)).
    + constructor; assumption.
    + constructor; [exact Hi |]. constructor; assumption.
Qed.

Lemma sort_desc_bound scores :
  Forall (fun j => (j < length scores)%nat) (sort_desc scores).
Proof.
  unfold sort_desc.
  assert (H : Forall (fun j => (j < length scores)%nat) (seq 0 (length scores))).
  { apply Forall_forall. intros j Hj. apply in_seq in Hj. lia. }
  induction H as [| j r Hj Hr IH]; cbn; [constructor |].
  apply insert_desc_bound; assumption.
Qed.

(** The contract of the suppression: at most [max_output_size] indices,
    all of them positions of [scores], pairwise no more than the threshold
    apart. *)
Lemma non_max_suppression_ok boxes scores max_output_size thr :
  selection_ok boxes thr max_output_size (length scores)
    (non_max_suppression boxes scores max_output_size thr).
Proof.
  unfold non_max_suppression. apply nms_loop_ok.
  - apply sort_desc_bound.
  - repeat split; [cbn; lia | constructor | constructor].
Qed.

End NmsFacts.

(** ** The output of [yolo_eval] *)

Module FilterFacts.

Import QAux Correct Filter NmsFacts.
Local Open Scope Q_scope.

(** One entry of the three parallel result arrays. *)
Definition Detection : Type := (Box * Q * nat)%type.
Definition d_box (d : Detection) : Box := fst (fst d).
Definition d_score (d : Detection) : Q := snd (fst d).
Definition d_class (d : Detection) : nat := snd d.

Definition zip3 (out : list Box * list Q * list nat) : list Detection :=
  combine (combine (fst (fst out)) (snd (fst out))) (snd out).

(** The entries of the result that carry class [c]. *)
Definition class_part (c : nat) (out : list Box * list Q * list nat) : list Detection :=
  filter (fun d => Nat.eqb (d_class d) c) (zip3 out).

(** The concatenated [boxes] and [box_scores] of [yolo_eval]. *)
Definition all_boxes (yolo_outputs : list (list Candidate)) : list Box :=
  concat (map fst (map yolo_boxes_and_scores yolo_outputs)).

Definition all_scores (yolo_outputs : list (list Candidate)) : list (list Q) :=
  concat (map snd (map yolo_boxes_and_scores yolo_outputs)).

Definition column (c : nat) (box_scores : list (list Q)) : list Q :=
  map (fun row => nth c row 0) box_scores.

Definition score_row (cand : Candidate) : list Q :=
  map (Qmult (c_confidence cand)) (c_class_probs cand).

Lemma all_boxes_candidates outs : all_boxes outs = map c_box (concat outs).
Proof.
  unfold all_boxes. induction outs as [| layer outs IH]; cbn; [reflexivity |].
  rewrite map_app. f_equal. exact IH.
Qed.

Lemma all_scores_candidates outs : all_scores outs = map score_row (concat outs).
Proof.
  unfold all_scores. induction outs as [| layer outs IH]; cbn; [reflexivity |].
  rewrite map_app. f_equal. exact IH.
Qed.

Lemma boolean_mask_map {A B} (f : A -> B) (g : A -> bool) (l : list A) :
  boolean_mask (map f l) (map g l) = map f (filter g l).
Proof.
  unfold boolean_mask. induction l as [| x l IH]; cbn; [reflexivity |].
  destruct (g x); cbn; rewrite IH; reflexivity.
Qed.

Lemma combine_app {A B} (l1 l2 : list A) (r1 r2 : list B) :
  length l1 = length r1 ->
  combine (l1 ++ l2) (r1 ++ r2) = combine l1 r1 ++ combine l2 r2.
Proof.
  revert r1. induction l1 as [| x l1 IH]; intros [| y r1] H; cbn in *;
    try discriminate; [reflexivity |].
  f_equal. apply IH. lia.
Qed.

Lemma score_row_nth c cand :
  nth c (score_row cand) 0 == c_confidence cand * nth c (c_class_probs cand) 0.
Proof.
  unfold score_row.
  destruct (Nat.lt_ge_cases c (length (c_class_probs cand))) as [H | H].
  - rewrite (nth_indep _ 0 (c_confidence cand * 0)) by (rewrite length_map; exact H).
    rewrite map_nth. reflexivity.
  - rewrite !nth_overflow by (try rewrite length_map; exact H). ring.
Qed.

(** The detections of one class, one by one. *)
Definition class_dets (boxes : list Box) (box_scores : list (list Q))
    (max_boxes : nat) (st it : Q) (c : nat) : list Detection :=
  zip3 (class_detections boxes box_scores max_boxes st it c).

Definition keep (st : Q) (c : nat) (cand : Candidate) : bool :=
  negb (Qltb (nth c (score_row cand) 0) st).

Lemma class_dets_indices cands max_boxes st it c :
  let kept := filter (keep st c) cands in
  let idx := non_max_suppression (map c_box kept)
               (map (fun cand => nth c (score_row cand) 0) kept) max_boxes it in
  class_dets (map c_box cands) (map score_row cands) max_boxes st it c
  = map (fun i => (nth i (map c_box kept) zero_box,
                   nth i (map (fun cand => nth c (score_row cand) 0) kept) 0, c)) idx.
Proof.
  intros kept idx. unfold class_dets, class_detections, zip3, gather. cbn [fst snd].
  rewrite !map_map.
  change (map (fun x => negb (Qltb (nth c (score_row x) 0) st)) cands)
    with (map (keep st c) cands).
  rewrite !boolean_mask_map. fold kept. fold idx.
  induction idx as [| i idx IH]; cbn; [reflexivity |]. rewrite IH. reflexivity.
Qed.

Lemma class_detections_lengths boxes box_scores max_boxes st it c :
  let out := class_detections boxes box_scores max_boxes st it c in
  length (fst (fst out)) = length (snd out) /\
  length (snd (fst out)) = length (snd out).
Proof.
  unfold class_detections, gather. cbn [fst snd]. rewrite !length_map. auto.
Qed.

(** What holds of the detections of class [c]. *)
Lemma class_dets_ok cands max_boxes st it c :
  let dets := class_dets (map c_box cands) (map score_row cands) max_boxes st it c in
  (length dets <= max_boxes)%nat /\
  ForallOrdPairs (fun d1 d2 => corner_iou (d_box d2) (d_box d1) <= it) dets /\
  Forall (fun d => d_class d = c /\ st <= d_score d /\
                   exists cand, In cand cands /\ d_box d = c_box cand /\
                                d_score d = nth c (score_row cand) 0) dets.
Proof.
  cbv zeta. rewrite class_dets_indices.
  set (kept := filter (keep st c) cands).
  set (boxes := map c_box kept).
  set (scores := map (fun cand => nth c (score_row cand) 0) kept).
  destruct (non_max_suppression_ok boxes scores max_boxes it) as [Hlen [Hp Hb]].
  set (idx := non_max_suppression boxes scores max_boxes it) in *. clearbody idx.
  repeat split.
  - rewrite length_map. exact Hlen.
  - apply ForallOrdPairs_map. cbn. exact Hp.
  - apply Forall_map. apply Forall_forall. intros i Hi. cbn.
    rewrite Forall_forall in Hb. specialize (Hb i Hi).
    subst scores boxes. rewrite length_map in Hb.
    set (dflt := mkCandidate zero_box 0 []).
    assert (Hin : In (nth i kept dflt) kept) by (apply nth_In; exact Hb).
    unfold kept in Hin at 2. apply filter_In in Hin. destruct Hin as [Hc Hk].
    rewrite (nth_indep _ zero_box (c_box dflt)) by (rewrite length_map; exact Hb).
    rewrite (nth_indep _ 0 (nth c (score_row dflt) 0)) by (rewrite length_map; exact Hb).
    rewrite (map_nth c_box), (map_nth (fun cand => nth c (score_row cand) 0)).
    repeat split.
    + unfold keep in Hk. apply negb_true_iff, Qltb_ge in Hk. exact Hk.
    + exists (nth i kept dflt). auto.
Qed.

(** The detections of a class depend on the scores of that class only. *)
Lemma class_detections_column boxes box_scores box_scores' max_boxes st it c :
  column c box_scores = column c box_scores' ->
  class_detections boxes box_scores max_boxes st it c
  = class_detections boxes box_scores' max_boxes st it c.
Proof.
  unfold column. intros H. unfold class_detections.
  assert (E : forall bs, map (fun row => negb (Qltb (nth c row 0) st)) bs
                         = map (fun v => negb (Qltb v st))
                               (map (fun row => nth c row 0) bs))
    by (intros bs; rewrite map_map; reflexivity).
  rewrite (E box_scores), (E box_scores'), H. reflexivity.
Qed.

(** The class loop of [yolo_eval] over an arbitrary list of classes. *)
Definition eval_classes (boxes : list Box) (box_scores : list (list Q))
    (max_boxes : nat) (st it : Q) (cs : list nat) : list Box * list Q * list nat :=
  let per_class := map (class_detections boxes box_scores max_boxes st it) cs in
  (concat (map (fun d => fst (fst d)) per_class),
   concat (map (fun d => snd (fst d)) per_class),
   concat (map snd per_class)).

Lemma yolo_eval_classes outs num_classes ob os oi :
  yolo_eval outs num_classes ob os oi
  = eval_classes (all_boxes outs) (all_scores outs) (kwarg ob 20%nat)
      (kwarg os (6 # 10)) (kwarg oi (5 # 10)) (seq 0 num_classes).
Proof. reflexivity. Qed.

Lemma eval_classes_zip boxes box_scores max_boxes st it cs :
  let out := eval_classes boxes box_scores max_boxes st it cs in
  length (fst (fst out)) = length (snd out) /\
  length (snd (fst out)) = length (snd out) /\
  zip3 out = flat_map (class_dets boxes box_scores max_boxes st it) cs.
Proof.
  induction cs as [| c cs IH]; [cbn; auto |].
  destruct IH as [Hb [Hs Hz]].
  destruct (class_detections_lengths boxes box_scores max_boxes st it c) as [Lb Ls].
  unfold eval_classes in *. cbn [fst snd map concat flat_map] in *.
  unfold class_dets at 1.
  set (d := class_detections boxes box_scores max_boxes st it c) in *.
  clearbody d. destruct d as [[db ds] dc]. cbn [fst snd] in *.
  repeat split.
  - rewrite !length_app. lia.
  - rewrite !length_app. lia.
  - unfold zip3 in *. cbn [fst snd] in *.
    rewrite combine_app by congruence.
    rewrite combine_app by (rewrite length_combine; lia).
    rewrite Hz. reflexivity.
Qed.

Lemma class_dets_class boxes box_scores max_boxes st it c :
  Forall (fun d => d_class d = c) (class_dets boxes box_scores max_boxes st it c).
Proof.
  unfold class_dets, class_detections, zip3. cbn [fst snd].
  set (idx := non_max_suppression _ _ _ _). clearbody idx.
  set (bs := gather zero_box _ idx). set (ss := gather 0 _ idx).
  set (l := combine bs ss). clearbody l. clear.
  revert l. induction idx as [| i idx IH]; intros [| x l]; cbn; constructor.
  - reflexivity.
  - apply IH.
Qed.

Lemma filter_class_other (c c' : nat) (l : list Detection) :
  c' <> c -> Forall (fun d => d_class d = c') l ->
  filter (fun d => Nat.eqb (d_class d) c) l = [].
Proof.
  intros Hne. induction 1 as [| d l Hd _ IH]; cbn; [reflexivity |].
  rewrite Hd. destruct (Nat.eqb_spec c' c); [contradiction | exact IH].
Qed.

Lemma filter_class_same (c : nat) (l : list Detection) :
  Forall (fun d => d_class d = c) l ->
  filter (fun d => Nat.eqb (d_class d) c) l = l.
Proof.
  induction 1 as [| d l Hd _ IH]; cbn; [reflexivity |].
  rewrite Hd, Nat.eqb_refl, IH. reflexivity.
Qed.

(** Filtering the concatenation by class gives back the block of that
    class: blocks of other classes vanish. *)
Lemma filter_class_blocks (F : nat -> list Detection) (c : nat) (cs : list nat) :
  (forall c', Forall (fun d => d_class d = c') (F c')) ->
  NoDup cs ->
  filter (fun d => Nat.eqb (d_class d) c) (flat_map F cs)
  = if existsb (Nat.eqb c) cs then F c else [].
Proof.
  intros HF. induction 1 as [| c' cs Hnin Hnd IH]; cbn; [reflexivity |].
  rewrite filter_app, IH.
  destruct (Nat.eqb_spec c c') as [-> | Hne]; cbn.
  - rewrite (filter_class_same _ _ (HF c')).
    destruct (existsb (Nat.eqb c') cs) eqn:E.
    + apply existsb_exists in E. destruct E as [x [Hx Ex]].
      apply Nat.eqb_eq in Ex. subst x. contradiction.
    + apply app_nil_r.
  - rewrite (filter_class_other c c' (F c')) by (auto; congruence).
    reflexivity.
Qed.

Lemma existsb_seq c n : (c < n)%nat -> existsb (Nat.eqb c) (seq 0 n) = true.
Proof.
  intros H. apply existsb_exists. exists c. split.
  - apply in_seq. lia.
  - apply Nat.eqb_refl.
Qed.

(** Two detections of one class overlap by no more than the threshold,
    in whichever order the overlap is computed. *)
Definition separated (it : Q) (d1 d2 : Detection) : Prop :=
  d_class d1 = d_class d2 ->
  corner_iou (d_box d1) (d_box d2) <= it /\ corner_iou (d_box d2) (d_box d1) <= it.

(** A detection is a thresholded candidate with its product score. *)
Definition from_candidate (outs : list (list Candidate)) (num_classes : nat) (st : Q)
    (d : Detection) : Prop :=
  (d_class d < num_classes)%nat /\ st <= d_score d /\
  exists cand, In cand (concat outs) /\ d_box d = c_box cand /\
               d_score d == c_confidence cand * nth (d_class d) (c_class_probs cand) 0.

Lemma blocks_separated cands max_boxes st it cs :
  NoDup cs ->
  ForallOrdPairs (separated it)
    (flat_map (class_dets (map c_box cands) (map score_row cands) max_boxes st it) cs).
Proof.
  induction 1 as [| c cs Hnin Hnd IH]; cbn [flat_map]; [constructor |].
  apply ForallOrdPairs_app.
  - destruct (class_dets_ok cands max_boxes st it c) as [_ [Hp _]].
    revert Hp. apply ForallOrdPairs_impl_in.
    intros x y _ _ Hxy _. split; [| exact Hxy].
    rewrite corner_iou_sym. exact Hxy.
  - exact IH.
  - intros x y Hx Hy Hc. exfalso.
    pose proof (class_dets_class (map c_box cands) (map score_row cands)
                  max_boxes st it c) as Hcx.
    rewrite Forall_forall in Hcx. specialize (Hcx x Hx).
    apply in_flat_map in Hy. destruct Hy as [c' [Hc' Hy]].
    pose proof (class_dets_class (map c_box cands) (map score_row cands)
                  max_boxes st it c') as Hcy.
    rewrite Forall_forall in Hcy. specialize (Hcy y Hy).
    apply Hnin. congruence.
Qed.

Lemma blocks_from_candidates outs num_classes max_boxes st it :
  Forall (from_candidate outs num_classes st)
    (flat_map (class_dets (map c_box (concat outs)) (map score_row (concat outs))
                 max_boxes st it) (seq 0 num_classes)).
Proof.
  apply Forall_forall. intros d Hd.
  apply in_flat_map in Hd. destruct Hd as [c [Hc Hd]].
  apply in_seq in Hc.
  destruct (class_dets_ok (concat outs) max_boxes st it c) as [_ [_ Hf]].
  rewrite Forall_forall in Hf. destruct (Hf d Hd) as [Hcl [Hst [cand [Hin [Hb Hs]]]]].
  unfold from_candidate. rewrite Hcl. repeat split; [lia | exact Hst |].
  exists cand. repeat split; try assumption.
  rewrite Hs. apply score_row_nth.
Qed.

Lemma class_part_block outs num_classes ob os oi c :
  class_part c (yolo_eval outs num_classes ob os oi)
  = if existsb (Nat.eqb c) (seq 0 num_classes)
    then class_dets (all_boxes outs) (all_scores outs) (kwarg ob 20%nat)
           (kwarg os (6 # 10)) (kwarg oi (5 # 10)) c
    else [].
Proof.
  unfold class_part. rewrite yolo_eval_classes.
  destruct (eval_classes_zip (all_boxes outs) (all_scores outs) (kwarg ob 20%nat)
              (kwarg os (6 # 10)) (kwarg oi (5 # 10)) (seq 0 num_classes))
    as [_ [_ Hz]].
  rewrite Hz. apply filter_class_blocks.
  - intros c'. apply class_dets_class.
  - apply seq_NoDup.
Qed.

(** C2: in the output of [yolo_eval], two detections of one class overlap
    by no more than [iou_threshold]; every detection is a candidate box with
    score objectness x class probability, at least [score_threshold]; each
    class has at most [max_boxes] detections; and the detections of a class
    depend on the boxes and on that class's scores only, so no box is
    suppressed by a box of another class. *)
Theorem C2_yolo_eval_per_class_nms :
  forall outs num_classes ob os oi,
    let max_boxes := kwarg ob 20%nat in
    let st := kwarg os (6 # 10) in
    let it := kwarg oi (5 # 10) in
    let out := yolo_eval outs num_classes ob os oi in
    length (fst (fst out)) = length (snd out) /\
    length (snd (fst out)) = length (snd out) /\
    ForallOrdPairs (separated it) (zip3 out) /\
    Forall (from_candidate outs num_classes st) (zip3 out) /\
    (forall c, (length (class_part c out) <= max_boxes)%nat) /\
    (forall outs' c,
        all_boxes outs' = all_boxes outs ->
        column c (all_scores outs') = column c (all_scores outs) ->
        class_part c (yolo_eval outs' num_classes ob os oi) = class_part c out).
Proof.
  intros outs num_classes ob os oi max_boxes st it out.
  destruct (eval_classes_zip (all_boxes outs) (all_scores outs) max_boxes st it
              (seq 0 num_classes)) as [Hb [Hs Hz]].
  assert (Hout : out = eval_classes (all_boxes outs) (all_scores outs) max_boxes
                         st it (seq 0 num_classes)) by reflexivity.
  split; [rewrite Hout; exact Hb |]. split; [rewrite Hout; exact Hs |].
  split.
  { rewrite Hout, Hz, all_boxes_candidates, all_scores_candidates.
    apply blocks_separated. apply seq_NoDup. }
  split.
  { rewrite Hout, Hz, all_boxes_candidates, all_scores_candidates.
    apply blocks_from_candidates. }
  split.
  - intros c. subst out. rewrite class_part_block.
    destruct (existsb (Nat.eqb c) (seq 0 num_classes)); [| cbn; lia].
    rewrite all_boxes_candidates, all_scores_candidates.
    apply (class_dets_ok (concat outs) (kwarg ob 20%nat) (kwarg os (6 # 10))
             (kwarg oi (5 # 10)) c).
  - intros outs' c Hboxes Hcol. subst out. rewrite !class_part_block.
    destruct (existsb (Nat.eqb c) (seq 0 num_classes)); [| reflexivity].
    unfold class_dets. rewrite Hboxes.
    rewrite (class_detections_column _ _ _ _ _ _ _ Hcol). reflexivity.
Qed.

(** The scenario of the spec: two candidates of one class with scores 0.9
    and 0.35 and IoU 0.6; only the first survives thresholds 0.3 and 0.45. *)
Example nms_scenario :
  let a := mkCandidate (mkBox 0 0 10 10) 1 [9 # 10] in
  let b := mkCandidate (mkBox 0 0 10 6) 1 [35 # 100] in
  corner_iou (c_box a) (c_box b) == 6 # 10 /\
  yolo_eval [[a; b]] 1 None (Some (3 # 10)) (Some (45 # 100))
  = ([mkBox 0 0 10 10], [1 * (9 # 10)], [0%nat]).
Proof. cbv zeta. split; vm_compute; reflexivity. Qed.

(** C5 (as stated) fails for [yolo_eval] itself: a candidate of score 0.5
    is dropped by the call without keyword arguments and kept under the
    values 0.3, 0.45 and 20. *)
Lemma C5_counterexample :
  let a := mkCandidate (mkBox 0 0 10 10) 1 [5 # 10] in
  yolo_eval [[a]] 1 None None None = ([], [], []) /\
  yolo_eval [[a]] 1 (Some 20%nat) (Some (3 # 10)) (Some (45 # 100))
  = ([mkBox 0 0 10 10], [1 * (5 # 10)], [0%nat]).
Proof. cbv zeta. split; vm_compute; reflexivity. Qed.

(** C5 (amended): [yolo_eval] called without the keyword arguments runs
    with at most 20 boxes per class, score threshold 0.6 and IoU threshold
    0.5.  The [YOLO] wrapper defaults to score 0.3 and IoU 0.45, in the
    constructor and in [_DEFAULT_PARAMS] alike, and always passes its two
    values to [yolo_eval], leaving [max_boxes] at 20. *)
Theorem C5_defaults :
  forall outs num_classes,
    yolo_eval outs num_classes None None None
    = yolo_eval outs num_classes (Some 20%nat) (Some (6 # 10)) (Some (5 # 10)) /\
    score (YOLO_init None None) = DEFAULT_PARAMS_score /\
    iou (YOLO_init None None) = DEFAULT_PARAMS_iou /\
    DEFAULT_PARAMS_score == 0.3 /\ DEFAULT_PARAMS_iou == 0.45 /\
    (forall s i,
        YOLO_create_model (YOLO_init s i) outs num_classes
        = yolo_eval outs num_classes (Some 20%nat)
            (Some (kwarg s (3 # 10))) (Some (kwarg i (45 # 100)))).
Proof.
  intros outs num_classes. repeat (apply conj); try reflexivity.
Qed.

End FilterFacts.

(** ** Loss composer: [box_iou] and the target size term of [yolo_loss] *)

Module Loss.

Import QAux.
Local Open Scope Q_scope.

(** A float32 result: a finite value, an infinity or NaN.  Signed zeros
    are not told apart. *)
Inductive fval : Type :=
| Fin (q : Q)
| PInf
| NInf
| NaN.

Definition is_finite (v : fval) : bool :=
  match v with
  | Fin _ => true
  | _ => false
  end.

(** Division of finite values: [0 / 0] is NaN, [x / 0] an infinity. *)
Definition fdiv (a b : Q) : fval :=
  if Qeq_bool b 0 then
    if Qeq_bool a 0 then NaN else if Qltb 0 a then PInf else NInf
  else Fin (a / b).

(** A box [x, y, w, h]. *)
Record XYWH : Type := mkXYWH { bx : Q; by_ : Q; bw : Q; bh : Q }.

Definition intersect_area (b1 b2 : XYWH) : Q :=
  let b1_wh_half := (bw b1 / 2, bh b1 / 2) in
  let b1_mins := (bx b1 - fst b1_wh_half, by_ b1 - snd b1_wh_half) in
  let b1_maxes := (bx b1 + fst b1_wh_half, by_ b1 + snd b1_wh_half) in
  let b2_wh_half := (bw b2 / 2, bh b2 / 2) in
  let b2_mins := (bx b2 - fst b2_wh_half, by_ b2 - snd b2_wh_half) in
  let b2_maxes := (bx b2 + fst b2_wh_half, by_ b2 + snd b2_wh_half) in
  let intersect_mins := (Qmax (fst b1_mins) (fst b2_mins),
                         Qmax (snd b1_mins) (snd b2_mins)) in
  let intersect_maxes := (Qmin (fst b1_maxes) (fst b2_maxes),
                          Qmin (snd b1_maxes) (snd b2_maxes)) in
  let intersect_wh := (Qmax (fst intersect_maxes - fst intersect_mins) 0,
                       Qmax (snd intersect_maxes - snd intersect_mins) 0) in
  fst intersect_wh * snd intersect_wh.

(** [b1_area + b2_area - intersect_area] *)
Definition union_area (b1 b2 : XYWH) : Q :=
  bw b1 * bh b1 + bw b2 * bh b2 - intersect_area b1 b2.

(** One entry of [box_iou]:
    [iou = intersect_area / (b1_area + b2_area - intersect_area)]. *)
Definition iou_pair (b1 b2 : XYWH) : fval :=
  fdiv (intersect_area b1 b2) (union_area b1 b2).

(** [box_iou(b1, b2)]: [b1] of shape [(n, 4)] against [b2] of shape
    [(j, 4)] gives shape [(n, j)]. *)
Definition box_iou (b1 b2 : list XYWH) : list (list fval) :=
  map (fun p => map (iou_pair p) b2) b1.

Section TargetSize.

(** The logarithm of a positive number, to float precision. *)
Variable ln : Q -> Q.

(** [K.log] *)
Definition klog (x : Q) : fval :=
  if Qeq_bool x 0 then NInf else if Qltb x 0 then NaN else Fin (ln x).

(** [tf.cast(object_mask, 'bool')] inside [K.switch]. *)
Definition cast_bool (x : Q) : bool := negb (Qeq_bool x 0).

(** One anchor slot [v] of [y_true[l]] (a row of [5 + C] numbers):
    [raw_true_wh = K.log(y_true[l][..., 2:4] / anchors[anchor_mask[l]]
                         * input_shape[::-1])] and then
    [K.switch(object_mask, raw_true_wh, K.zeros_like(raw_true_wh))];
    [input_shape] is [(h, w)] and anchors are positive. *)
Definition raw_true_wh (v : list Q) (anchor : Q * Q) (input_shape : Q * Q)
    : fval * fval :=
  let object_mask := nth 4 v 0 in
  let raw := (klog (nth 2 v 0 / fst anchor * snd input_shape),
              klog (nth 3 v 0 / snd anchor * fst input_shape)) in
  if cast_bool object_mask then raw else (Fin 0, Fin 0).

(** All anchor slots of one grid cell. *)
Fixpoint raw_true_wh_cell (cell : list (list Q)) (anchors : list (Q * Q))
    (input_shape : Q * Q) : list (fval * fval) :=
  match cell, anchors with
  | v :: cell', a :: anchors' =>
      raw_true_wh v a input_shape :: raw_true_wh_cell cell' anchors' input_shape
  | _, _ => []
  end.

End TargetSize.

Lemma fdiv_nonzero a b : ~ b == 0 -> fdiv a b = Fin (a / b).
Proof.
  intros H. unfold fdiv. destruct (Qeq_bool b 0) eqn:E; [| reflexivity].
  apply Qeq_bool_iff in E. contradiction.
Qed.

Lemma fdiv_zero a b : b == 0 -> is_finite (fdiv a b) = false.
Proof.
  intros H. unfold fdiv. apply Qeq_bool_iff in H. rewrite H.
  destruct (Qeq_bool a 0); [reflexivity |]. destruct (Qltb 0 a); reflexivity.
Qed.

(** C9 (as stated) fails for the IoU: two boxes of zero size have a zero
    union, and [box_iou] answers NaN, not 0. *)
Lemma C9_counterexample :
  union_area (mkXYWH 0 0 0 0) (mkXYWH 0 0 0 0) == 0 /\
  box_iou [mkXYWH 0 0 0 0] [mkXYWH 0 0 0 0] = [[NaN]] /\
  NaN <> Fin 0.
Proof.
  repeat (apply conj); [vm_compute; reflexivity | vm_compute; reflexivity | discriminate].
Qed.

(** The mask protects only the slots it zeroes: a responsible slot
    (objectness 1) whose target height is 0 keeps the infinite logarithm. *)
Lemma raw_true_wh_unmasked_zero_size ln :
  raw_true_wh ln [1 # 2; 1 # 2; 1 # 4; 0; 1] (10, 13) (416, 416)
  = (Fin (ln ((1 # 4) / 10 * 416)), NInf).
Proof. reflexivity. Qed.

(** C9 (amended): wherever the objectness mask is zero the target
    width/height term is 0, whatever the logarithm gave there.  [box_iou]
    has no guard: with a non-zero union it returns intersection / union,
    and with a zero union the division by zero gives NaN or an infinity. *)
Theorem C9_masked_log_and_unguarded_iou :
  forall (ln : Q -> Q) (v : list Q) (anchor input_shape : Q * Q) (b1 b2 : XYWH),
    (nth 4 v 0 == 0 -> raw_true_wh ln v anchor input_shape = (Fin 0, Fin 0)) /\
    (~ union_area b1 b2 == 0 ->
     iou_pair b1 b2 = Fin (intersect_area b1 b2 / union_area b1 b2)) /\
    (union_area b1 b2 == 0 -> is_finite (iou_pair b1 b2) = false).
Proof.
  intros ln v anchor input_shape b1 b2. repeat (apply conj).
  - intros H. unfold raw_true_wh, cast_bool.
    apply Qeq_bool_iff in H. rewrite H. reflexivity.
  - intros H. apply fdiv_nonzero. exact H.
  - intros H. apply fdiv_zero. exact H.
Qed.

Lemma C9_witness :
  let v := [0; 0; 0; 0; 0; 0] in
  let b1 := mkXYWH (1 # 2) (1 # 2) (1 # 2) (1 # 2) in
  let b2 := mkXYWH (1 # 2) (1 # 2) 1 1 in
  nth 4 v 0 == 0 /\ ~ union_area b1 b2 == 0 /\
  raw_true_wh (fun x => x - 1) v (10, 13) (416, 416) = (Fin 0, Fin 0) /\
  iou_pair b1 b2 = Fin (intersect_area b1 b2 / union_area b1 b2).
Proof.
  cbv zeta.
  assert (H0 : nth 4 [0; 0; 0; 0; 0; 0] 0 == 0) by reflexivity.
  assert (Hu : ~ union_area (mkXYWH (1 # 2) (1 # 2) (1 # 2) (1 # 2))
                   (mkXYWH (1 # 2) (1 # 2) 1 1) == 0)
    by (vm_compute; discriminate).
  pose proof (C9_masked_log_and_unguarded_iou (fun x => x - 1) [0; 0; 0; 0; 0; 0]
                (10, 13) (416, 416)
                (mkXYWH (1 # 2) (1 # 2) (1 # 2) (1 # 2)) (mkXYWH (1 # 2) (1 # 2) 1 1))
    as [Hm [Hi _]].
  repeat (apply conj); [exact H0 | exact Hu | exact (Hm H0) | exact (Hi Hu)].
Defined.

End Loss.

(** ** Box decoder: [yolo_head] (yolo3/model.py) *)

Module Head.

Local Open Scope R_scope.

(** [K.sigmoid] *)
Definition sigmoid (x : R) : R := 1 / (1 + exp (- x)).

(** Tensors are nested lists, outermost axis first. *)
Definition T1 : Type := list R.
Definition T2 : Type := list T1.
Definition T3 : Type := list T2.
Definition T4 : Type := list T3.
Definition T5 : Type := list T4.

(** Elementwise combination of two axes of equal length. *)
Fixpoint zip_with {A B C} (f : A -> B -> C) (l1 : list A) (l2 : list B) : list C :=
  match l1, l2 with
  | a :: r1, b :: r2 => f a b :: zip_with f r1 r2
  | _, _ => []
  end.

(** [K.tile] along the leading axis. *)
Definition tile0 {A} (n : nat) (l : list A) : list A := concat (repeat l n).

(** [K.arange(0, stop=n)] *)
Definition arange (n : nat) : list nat := seq 0 n.

(** [K.tile(K.reshape(K.arange(0, stop=grid_shape[0]), [-1, 1, 1, 1]),
            [1, grid_shape[1], 1, 1])], shape [(gh, gw, 1, 1)]. *)
Definition grid_y (grid_shape : nat * nat) : list (list (list (list nat))) :=
  map (tile0 (snd grid_shape)) (map (fun v => [[[v]]]) (arange (fst grid_shape))).

(** [K.tile(K.reshape(K.arange(0, stop=grid_shape[1]), [1, -1, 1, 1]),
            [grid_shape[0], 1, 1, 1])], shape [(gh, gw, 1, 1)]. *)
Definition grid_x (grid_shape : nat * nat) : list (list (list (list nat))) :=
  tile0 (fst grid_shape) [map (fun v => [[v]]) (arange (snd grid_shape))].

(** [K.cast(K.concatenate([grid_x, grid_y]), K.dtype(feats))],
    shape [(gh, gw, 1, 2)]. *)
Definition grid (grid_shape : nat * nat) : T4 :=
  map (map (map (map INR)))
      (zip_with (zip_with (zip_with (@app nat))) (grid_x grid_shape) (grid_y grid_shape)).

(** Splitting an axis of length [k * n] into [k] rows of length [n]. *)
Fixpoint chunks (k n : nat) (l : list R) : T2 :=
  match k with
  | O => []
  | S k' => firstn n l :: chunks k' n (skipn n l)
  end.

(** [K.reshape(feats, [-1, gh, gw, num_anchors, num_classes + 5])] of a
    tensor of shape [(batch, gh, gw, num_anchors * (num_classes + 5))]. *)
Definition reshape5 (num_anchors num_classes : nat) (feats : T4) : T5 :=
  map (map (map (chunks num_anchors (num_classes + 5)))) feats.

(** [K.shape(feats)[1:3]] *)
Definition shape_1_3 (feats : T4) : nat * nat :=
  (length (hd [] feats), length (hd [] (hd [] feats))).

(** [a[..., lo:hi]] and [a[..., lo:]] on the last axis. *)
Definition slice (lo hi : nat) (v : T1) : T1 := firstn (hi - lo) (skipn lo v).
Definition slice_from (lo : nat) (v : T1) : T1 := skipn lo v.

Definition map5 (f : T1 -> T1) (t : T5) : T5 := map (map (map (map f))) t.

(** [t + grid]: [t] of shape [(batch, gh, gw, A, 2)], [grid] of shape
    [(gh, gw, 1, 2)]; the batch axis and the anchor axis are broadcast. *)
Definition add_grid (t : T5) (g : T4) : T5 :=
  map (fun img =>
         zip_with (fun trow grow =>
                     zip_with (fun tcell gcell =>
                                 map (fun v => zip_with Rplus v (hd [] gcell)) tcell)
                              trow grow)
                  img g)
      t.

(** [t / d] and [t * a] against a vector [d] of shape [(2,)] and anchors
    [a] of shape [(1, 1, 1, A, 2)]. *)
Definition div_vec (t : T5) (d : T1) : T5 := map5 (fun v => zip_with Rdiv v d) t.

Definition mul_anchors (t : T5) (anchors_tensor : T2) : T5 :=
  map (map (map (fun cell => zip_with (zip_with Rmult) cell anchors_tensor))) t.

Definition yolo_head (feats : T4) (anchors : list (R * R)) (num_classes : nat)
    (input_shape : nat * nat) : T5 * T5 * T5 * T5 :=
  let num_anchors := length anchors in
  let anchors_tensor := map (fun a => [fst a; snd a]) anchors in
  let grid_shape := shape_1_3 feats in
  let grid := grid grid_shape in
  let feats := reshape5 num_anchors num_classes feats in
  let box_xy := div_vec (add_grid (map5 (map sigmoid) (map5 (slice 0 2) feats)) grid)
                        [INR (snd grid_shape); INR (fst grid_shape)] in
  let box_wh := div_vec (mul_anchors (map5 (map exp) (map5 (slice 2 4) feats))
                                     anchors_tensor)
                        [INR (snd input_shape); INR (fst input_shape)] in
  let box_confidence := map5 (map sigmoid) (map5 (slice 4 5) feats) in
  let box_class_probs := map5 (map sigmoid) (map5 (slice_from 5) feats) in
  (box_xy, box_wh, box_confidence, box_class_probs).

(** The entry [t[b, y, x, a]] (a vector along the last axis). *)
Definition at5 (t : T5) (b y x a : nat) : option T1 :=
  match nth_error t b with
  | Some img =>
      match nth_error img y with
      | Some row =>
          match nth_error row x with
          | Some cell => nth_error cell a
          | None => None
          end
      | None => None
      end
  | None => None
  end.

(** Every image has [gh] rows of [gw] cells. *)
Definition rectangular (feats : T4) (gh gw : nat) : Prop :=
  Forall (fun img => length img = gh /\ Forall (fun row => length row = gw) img) feats.

End Head.

(** ** The decoded entries of [yolo_head] *)

Module HeadFacts.

Import Head.
Local Open Scope R_scope.

Lemma nth_error_zip_with {A B C} (f : A -> B -> C) :
  forall (l1 : list A) (l2 : list B) (i : nat) (a : A) (b : B),
    nth_error l1 i = Some a -> nth_error l2 i = Some b ->
    nth_error (zip_with f l1 l2) i = Some (f a b).
Proof.
  induction l1 as [| x l1 IH]; intros l2 i a b H1 H2.
  - destruct i; discriminate.
  - destruct l2 as [| y l2]; [destruct i; discriminate |].
    destruct i as [| i]; cbn in *.
    + inversion H1; inversion H2; subst. reflexivity.
    + apply IH; assumption.
Qed.

Lemma nth_error_repeat_lt {A} (e : A) (n i : nat) :
  (i < n)%nat -> nth_error (repeat e n) i = Some e.
Proof.
  revert i. induction n as [| n IH]; intros i H; [lia |].
  destruct i as [| i]; cbn; [reflexivity | apply IH; lia].
Qed.

Lemma nth_error_seq_lt (s n i : nat) :
  (i < n)%nat -> nth_error (seq s n) i = Some (s + i)%nat.
Proof.
  revert s i. induction n as [| n IH]; intros s i H; [lia |].
  destruct i as [| i]; cbn.
  - f_equal. lia.
  - rewrite IH by lia. f_equal. lia.
Qed.

Lemma tile0_singleton {A} (n : nat) (e : A) : tile0 n [e] = repeat e n.
Proof.
  unfold tile0. induction n as [| n IH]; cbn; [reflexivity |].
  rewrite IH. reflexivity.
Qed.

(** The grid holds [(column, row)] at row [y], column [x]. *)
Lemma grid_at (gh gw y x : nat) :
  (y < gh)%nat -> (x < gw)%nat ->
  exists grow,
    nth_error (grid (gh, gw)) y = Some grow /\
    nth_error grow x = Some [[INR x; INR y]].
Proof.
  intros Hy Hx. unfold grid, grid_x, grid_y, arange. cbn [fst snd].
  rewrite tile0_singleton.
  eexists. split.
  - apply map_nth_error. apply nth_error_zip_with.
    + apply nth_error_repeat_lt. exact Hy.
    + apply map_nth_error. apply map_nth_error. apply nth_error_seq_lt. exact Hy.
  - change [[INR x; INR y]] with (map (map INR) [[(0 + x)%nat; (0 + y)%nat]]).
    apply map_nth_error with (f := map (map INR)).
    rewrite tile0_singleton.
    change [[(0 + x)%nat; (0 + y)%nat]]
      with (zip_with (@app nat) [[(0 + x)%nat]] [[(0 + y)%nat]]).
    apply nth_error_zip_with.
    + apply map_nth_error with (f := fun v => [[v]]).
      apply nth_error_seq_lt. exact Hx.
    + apply nth_error_repeat_lt. exact Hx.
Qed.

Lemma skipn_cons_nth (d : R) :
  forall (l : list R) (s : nat),
    (s < length l)%nat -> skipn s l = nth s l d :: skipn (S s) l.
Proof.
  induction l as [| x l IH]; intros s H; cbn in H; [lia |].
  destruct s as [| s]; [reflexivity |].
  cbn [skipn nth]. apply IH. lia.
Qed.

(** A window of a vector, entry by entry. *)
Lemma window_entries (d : R) (l : list R) :
  forall (n s : nat),
    (s + n <= length l)%nat ->
    firstn n (skipn s l) = map (fun k => nth (s + k) l d) (seq 0 n).
Proof.
  induction n as [| n IH]; intros s H; [reflexivity |].
  rewrite (skipn_cons_nth d) by lia. cbn [firstn seq map].
  rewrite Nat.add_0_r. f_equal.
  rewrite IH by lia. rewrite <- seq_shift, map_map.
  apply map_ext. intros k. f_equal. lia.
Qed.

Lemma chunks_at (n : nat) :
  forall (k a : nat) (l : list R),
    (a < k)%nat -> nth_error (chunks k n l) a = Some (firstn n (skipn (a * n) l)).
Proof.
  induction k as [| k IH]; intros a l H; [lia |].
  destruct a as [| a]; cbn [chunks nth_error]; [reflexivity |].
  rewrite IH by lia. rewrite skipn_skipn. do 3 f_equal. lia.
Qed.

Lemma at5_map5 (f : T1 -> T1) (t : T5) (b y x a : nat) (v : T1) :
  at5 t b y x a = Some v -> at5 (map5 f t) b y x a = Some (f v).
Proof.
  unfold at5, map5. intros H.
  destruct (nth_error t b) as [img |] eqn:E1; [| discriminate].
  destruct (nth_error img y) as [row |] eqn:E2; [| discriminate].
  destruct (nth_error row x) as [cell |] eqn:E3; [| discriminate].
  rewrite (map_nth_error _ _ _ E1), (map_nth_error _ _ _ E2),
    (map_nth_error _ _ _ E3).
  apply map_nth_error. exact H.
Qed.

Lemma at5_add_grid (t : T5) (g : T4) (b y x a : nat) (v : T1) grow gcell :
  at5 t b y x a = Some v ->
  nth_error g y = Some grow -> nth_error grow x = Some gcell ->
  at5 (add_grid t g) b y x a = Some (zip_with Rplus v (hd [] gcell)).
Proof.
  unfold at5, add_grid. intros H Hg1 Hg2.
  destruct (nth_error t b) as [img |] eqn:E1; [| discriminate].
  destruct (nth_error img y) as [row |] eqn:E2; [| discriminate].
  destruct (nth_error row x) as [cell |] eqn:E3; [| discriminate].
  rewrite (map_nth_error _ _ _ E1).
  rewrite (nth_error_zip_with _ _ _ _ _ _ E2 Hg1).
  rewrite (nth_error_zip_with _ _ _ _ _ _ E3 Hg2).
  apply map_nth_error with (f := fun v => zip_with Rplus v (hd [] gcell)).
  exact H.
Qed.

Lemma at5_mul_anchors (t : T5) (anchors_tensor : T2) (b y x a : nat) (v av : T1) :
  at5 t b y x a = Some v -> nth_error anchors_tensor a = Some av ->
  at5 (mul_anchors t anchors_tensor) b y x a = Some (zip_with Rmult v av).
Proof.
  unfold at5, mul_anchors. intros H Ha.
  destruct (nth_error t b) as [img |] eqn:E1; [| discriminate].
  destruct (nth_error img y) as [row |] eqn:E2; [| discriminate].
  destruct (nth_error row x) as [cell |] eqn:E3; [| discriminate].
  rewrite (map_nth_error _ _ _ E1), (map_nth_error _ _ _ E2),
    (map_nth_error _ _ _ E3).
  apply nth_error_zip_with; assumption.
Qed.

Lemma at5_reshape5 (feats : T4) (num_anchors num_classes b y x a : nat) img row cell :
  nth_error feats b = Some img -> nth_error img y = Some row ->
  nth_error row x = Some cell -> (a < num_anchors)%nat ->
  at5 (reshape5 num_anchors num_classes feats) b y x a
  = Some (firstn (num_classes + 5) (skipn (a * (num_classes + 5)) cell)).
Proof.
  intros E1 E2 E3 Ha. unfold at5, reshape5.
  rewrite (map_nth_error _ _ _ E1), (map_nth_error _ _ _ E2),
    (map_nth_error _ _ _ E3).
  apply chunks_at. exact Ha.
Qed.

Lemma rectangular_bounds (feats : T4) (gh gw b y x : nat) img row (cell : T1) :
  rectangular feats gh gw ->
  nth_error feats b = Some img -> nth_error img y = Some row ->
  nth_error row x = Some cell ->
  (y < gh)%nat /\ (x < gw)%nat.
Proof.
  intros Hrect E1 E2 E3. unfold rectangular in Hrect.
  rewrite Forall_forall in Hrect.
  destruct (Hrect img (nth_error_In _ _ E1)) as [Hlen Hrows].
  rewrite Forall_forall in Hrows.
  pose proof (Hrows row (nth_error_In _ _ E2)) as Hw.
  assert (Hy : nth_error img y <> None) by congruence.
  assert (Hx : nth_error row x <> None) by congruence.
  apply nth_error_Some in Hy. apply nth_error_Some in Hx.
  split; [rewrite <- Hlen; exact Hy | rewrite <- Hw; exact Hx].
Qed.

(** The reshaped row of anchor [a], channel by channel. *)
Lemma anchor_row (cell : T1) (num_anchors num_classes a : nat) :
  length cell = (num_anchors * (num_classes + 5))%nat -> (a < num_anchors)%nat ->
  let f := fun k => nth (a * (num_classes + 5) + k) cell 0 in
  firstn (num_classes + 5) (skipn (a * (num_classes + 5)) cell)
  = f 0%nat :: f 1%nat :: f 2%nat :: f 3%nat :: f 4%nat :: map f (seq 5 num_classes).
Proof.
  intros Hlen Ha f.
  assert (Hfit : ((a + 1) * (num_classes + 5) <= num_anchors * (num_classes + 5))%nat)
    by (apply Nat.mul_le_mono_r; lia).
  rewrite (window_entries 0) by lia.
  replace (seq 0 (num_classes + 5)) with (seq 0 (5 + num_classes))
    by (f_equal; lia).
  reflexivity.
Qed.

(** C8: the entry of anchor [a] at row [y], column [x] of image [b]
    decodes as: centre (sigmoid(raw_xy) + (column, row)) / (grid_w, grid_h);
    size exp(raw_wh) x anchor / (input_w, input_h); objectness and every
    class probability the sigmoid of its own raw channel. *)
Theorem C8_yolo_head_decoding :
  forall (feats : T4) (anchors : list (R * R)) (num_classes : nat)
         (input_shape : nat * nat) (b y x a : nat) img row cell (aw ah : R),
    rectangular feats (fst (shape_1_3 feats)) (snd (shape_1_3 feats)) ->
    nth_error feats b = Some img -> nth_error img y = Some row ->
    nth_error row x = Some cell ->
    nth_error anchors a = Some (aw, ah) ->
    length cell = (length anchors * (num_classes + 5))%nat ->
    let raw := fun k => nth (a * (num_classes + 5) + k) cell 0 in
    let grid_h := fst (shape_1_3 feats) in
    let grid_w := snd (shape_1_3 feats) in
    let out := yolo_head feats anchors num_classes input_shape in
    at5 (fst (fst (fst out))) b y x a
    = Some [(sigmoid (raw 0%nat) + INR x) / INR grid_w;
            (sigmoid (raw 1%nat) + INR y) / INR grid_h] /\
    at5 (snd (fst (fst out))) b y x a
    = Some [exp (raw 2%nat) * aw / INR (snd input_shape);
            exp (raw 3%nat) * ah / INR (fst input_shape)] /\
    at5 (snd (fst out)) b y x a = Some [sigmoid (raw 4%nat)] /\
    at5 (snd out) b y x a
    = Some (map (fun k => sigmoid (raw k)) (seq 5 num_classes)).
Proof.
  intros feats anchors num_classes input_shape b y x a img row cell aw ah
         Hrect E1 E2 E3 Ea Hlen raw grid_h grid_w out.
  assert (Ha : (a < length anchors)%nat).
  { apply nth_error_Some. congruence. }
  destruct (rectangular_bounds _ _ _ _ _ _ _ _ _ Hrect E1 E2 E3) as [Hy Hx].
  destruct (grid_at _ _ _ _ Hy Hx) as [grow [Hg1 Hg2]].
  pose proof (at5_reshape5 feats (length anchors) num_classes b y x a _ _ _
                E1 E2 E3 Ha) as H0.
  rewrite (anchor_row cell (length anchors) num_classes a Hlen Ha) in H0.
  fold raw in H0.
  set (F := reshape5 (length anchors) num_classes feats) in *.
  set (r := raw 0%nat :: raw 1%nat :: raw 2%nat :: raw 3%nat :: raw 4%nat
            :: map raw (seq 5 num_classes)) in *.
  subst out. unfold yolo_head. cbn [fst snd]. fold F.
  repeat (apply conj).
  - unfold div_vec.
    pose proof (at5_map5 (slice 0 2) _ _ _ _ _ _ H0) as H1.
    pose proof (at5_map5 (map sigmoid) _ _ _ _ _ _ H1) as H2.
    pose proof (at5_add_grid _ _ _ _ _ _ _ _ _ H2 Hg1 Hg2) as H3.
    rewrite (at5_map5 _ _ _ _ _ _ _ H3). reflexivity.
  - unfold div_vec.
    pose proof (at5_map5 (slice 2 4) _ _ _ _ _ _ H0) as H1.
    pose proof (at5_map5 (map exp) _ _ _ _ _ _ H1) as H2.
    assert (Hav : nth_error (map (fun a0 : R * R => [fst a0; snd a0]) anchors) a
                  = Some [aw; ah]).
    { apply (map_nth_error (fun a0 : R * R => [fst a0; snd a0]) _ _ Ea). }
    pose proof (at5_mul_anchors _ _ _ _ _ _ _ _ H2 Hav) as H3.
    rewrite (at5_map5 _ _ _ _ _ _ _ H3). reflexivity.
  - pose proof (at5_map5 (slice 4 5) _ _ _ _ _ _ H0) as H1.
    rewrite (at5_map5 (map sigmoid) _ _ _ _ _ _ H1). reflexivity.
  - pose proof (at5_map5 (slice_from 5) _ _ _ _ _ _ H0) as H1.
    rewrite (at5_map5 (map sigmoid) _ _ _ _ _ _ H1).
    subst r. cbn [slice_from skipn]. rewrite map_map. reflexivity.
Qed.

Lemma C8_witness :
  let feats := [[[[0; 0; 0; 0; 0; 0]; [1; 2; 3; 4; 5; 6]]]] in
  let out := yolo_head feats [(10, 13)] 1 (32, 64)%nat in
  rectangular feats 1 2 /\
  at5 (fst (fst (fst out))) 0 0 1 0
  = Some [(sigmoid 1 + INR 1) / INR 2; (sigmoid 2 + INR 0) / INR 1] /\
  at5 (snd (fst (fst out))) 0 0 1 0
  = Some [exp 3 * 10 / INR 64; exp 4 * 13 / INR 32] /\
  at5 (snd (fst out)) 0 0 1 0 = Some [sigmoid 5] /\
  at5 (snd out) 0 0 1 0 = Some [sigmoid 6].
Proof.
  cbv zeta.
  assert (Hrect : rectangular [[[[0; 0; 0; 0; 0; 0]; [1; 2; 3; 4; 5; 6]]]] 1 2).
  { repeat constructor. }
  split; [exact Hrect |].
  exact (C8_yolo_head_decoding [[[[0; 0; 0; 0; 0; 0]; [1; 2; 3; 4; 5; 6]]]]
           [(10, 13)] 1%nat (32, 64)%nat 0%nat 0%nat 1%nat 0%nat
           [[[0; 0; 0; 0; 0; 0]; [1; 2; 3; 4; 5; 6]]]
           [[0; 0; 0; 0; 0; 0]; [1; 2; 3; 4; 5; 6]]
           [1; 2; 3; 4; 5; 6] 10 13
           Hrect eq_refl eq_refl eq_refl eq_refl eq_refl).
Defined.

Lemma sigmoid_0 : sigmoid 0 = 1 / 2.
Proof.
  unfold sigmoid. rewrite Ropp_0, exp_0. lra.
Qed.

(** The class probabilities are not normalised across classes: three raw
    class channels at 0 decode to 1/2 each. *)
Example class_probs_not_softmax :
  let feats := [[[[0; 0; 0; 0; 0; 0; 0; 0]]]] in
  at5 (snd (yolo_head feats [(10, 13)] 3 (32, 32)%nat)) 0 0 0 0
  = Some [1 / 2; 1 / 2; 1 / 2] /\
  1 / 2 + 1 / 2 + 1 / 2 <> 1.
Proof.
  cbv zeta. split; [| lra].
  cbv - [sigmoid exp Rdiv Rplus Rmult INR IZR].
  rewrite sigmoid_0. reflexivity.
Qed.

End HeadFacts.

(** ** The writes reach the returned targets *)

Module OutputFacts.

Import QAux Py Assigner AssignFacts.
Local Open Scope Q_scope.

(** [g] holds of the entry at index [n], which exists. *)
Definition On {A} (n : nat) (g : A -> Prop) (l : list A) : Prop :=
  exists x, nth_error l n = Some x /\ g x.

Lemma On_upd {A} (g : A -> Prop) (f : A -> A) (n m : nat) (l : list A) :
  (forall x, g x -> g (f x)) -> On m g l -> On m g (upd n f l).
Proof.
  intros Hf. revert n m. induction l as [| x l IH]; intros n m [z [Hz Hg]].
  - destruct m; discriminate.
  - destruct n as [| n]; destruct m as [| m]; cbn in *.
    + inversion Hz; subst. exists (f z). auto.
    + exists z. auto.
    + exists z. auto.
    + apply IH. exists z. auto.
Qed.

Lemma On_upd_same {A} (g g' : A -> Prop) (f : A -> A) (n : nat) (l : list A) :
  (forall x, g x -> g' (f x)) -> On n g l -> On n g' (upd n f l).
Proof.
  intros Hf. revert n. induction l as [| x l IH]; intros n [z [Hz Hg]].
  - destruct n; discriminate.
  - destruct n as [| n]; cbn in *.
    + inversion Hz; subst. exists (f z). auto.
    + apply IH. exists z. auto.
Qed.


Lemma On_repeat {A} (g : A -> Prop) (n len : nat) (x : A) :
  (n < len)%nat -> g x -> On n g (repeat x len).
Proof.
  intros Hn Hg. exists x. split; [| exact Hg].
  revert n Hn. induction len as [| len IH]; intros n Hn; [lia |].
  destruct n as [| n]; cbn; [reflexivity | apply IH; lia].
Qed.

Lemma length_upd {A} (f : A -> A) (n : nat) (l : list A) :
  length (upd n f l) = length l.
Proof.
  revert n. induction l as [| x l IH]; intros n; [destruct n; reflexivity |].
  destruct n; cbn; [reflexivity | rewrite IH; reflexivity].
Qed.

Lemma nth_upd_const (c d : Q) (n m : nat) (l : list Q) :
  nth m (upd n (fun _ => c) l) d = c \/ nth m (upd n (fun _ => c) l) d = nth m l d.
Proof.
  revert n m. induction l as [| x l IH]; intros n m;
    [right; destruct n; reflexivity |].
  destruct n as [| n]; destruct m as [| m]; cbn; auto.
Qed.

Lemma nth_upd_same_const (c d : Q) (n : nat) (l : list Q) :
  (n < length l)%nat -> nth n (upd n (fun _ => c) l) d = c.
Proof.
  revert n. induction l as [| x l IH]; intros n H; cbn in H; [lia |].
  destruct n as [| n]; cbn; [reflexivity | apply IH; lia].
Qed.

Lemma nth_upd_other (c d : Q) (n m : nat) (l : list Q) :
  n <> m -> nth m (upd n (fun _ => c) l) d = nth m l d.
Proof.
  revert n m. induction l as [| x l IH]; intros n m H; [destruct n; reflexivity |].
  destruct n as [| n]; destruct m as [| m]; cbn; try reflexivity;
    [congruence | apply IH; congruence].
Qed.

(** What the three assignments do to the vector of a slot. *)
Definition stamp (ch : nat) (box : TrueBox) (v : list Q) : list Q :=
  upd ch (fun _ => 1) (upd 4 (fun _ => 1) (set4 box v)).

Lemma length_stamp ch box v : length (stamp ch box v) = length v.
Proof. unfold stamp, set4. rewrite !length_upd. reflexivity. Qed.

Lemma stamp_objectness ch box v :
  (4 < length v)%nat -> nth 4 (stamp ch box v) 0 = 1.
Proof.
  intros H. unfold stamp.
  destruct (nth_upd_const 1 0 ch 4 (upd 4 (fun _ => 1) (set4 box v))) as [E | E];
    rewrite E; [reflexivity |].
  apply nth_upd_same_const. unfold set4. rewrite !length_upd. exact H.
Qed.

(** A slot vector of the right length, and one whose objectness is set. *)
Definition sized (n : nat) (v : list Q) : Prop := length v = n.

(** [g] holds of the vector at [y_true[l][b, j, i, k]]. *)
Definition At (l b j i k : nat) (g : list Q -> Prop) (y_true : list Tensor5) : Prop :=
  On l (On b (On j (On i (On k g)))) y_true.

(** The array after the assignments at [(l, b, j, i, k)]. *)
Definition written (l b j i k ch : nat) (box : TrueBox) (y_true : list Tensor5)
    : list Tensor5 :=
  upd l (upd b (upd j (upd i (upd k (stamp ch box))))) y_true.

Lemma At_written_any (g : list Q -> Prop) l b j i k l' b' j' i' k' ch box y_true :
  (forall v, g v -> g (stamp ch box v)) ->
  At l b j i k g y_true -> At l b j i k g (written l' b' j' i' k' ch box y_true).
Proof.
  intros Hg. unfold At, written.
  apply On_upd. intros t. apply On_upd. intros img. apply On_upd.
  intros row. apply On_upd. intros cell. apply On_upd. exact Hg.
Qed.

Lemma At_written_same (g g' : list Q -> Prop) l b j i k ch box y_true :
  (forall v, g v -> g' (stamp ch box v)) ->
  At l b j i k g y_true -> At l b j i k g' (written l b j i k ch box y_true).
Proof.
  intros Hg. unfold At, written.
  apply On_upd_same. intros t. apply On_upd_same. intros img. apply On_upd_same.
  intros row. apply On_upd_same. intros cell. apply On_upd_same. exact Hg.
Qed.


Section Writes.

Variable grid_shapes : list (nat * nat).
Variable num_classes : nat.
Variable m : nat.

(** The indices of a write fall inside the arrays. *)
Definition in_range (w : Write) : Prop :=
  let g := nth (w_layer w) grid_shapes (0, 0)%nat in
  (0 <= w_row w < Z.of_nat (fst g))%Z /\
  (0 <= w_col w < Z.of_nat (snd g))%Z /\
  (0 <= w_class w < Z.of_nat num_classes)%Z /\
  (w_layer w < length grid_shapes)%nat /\ (w_image w < m)%nat /\ (w_slot w < 3)%nat.

(** Every slot of every scale exists and has [5 + C] channels. *)
Definition all_slots (y_true : list Tensor5) : Prop :=
  forall l b j i k,
    (l < length grid_shapes)%nat -> (b < m)%nat ->
    (j < fst (nth l grid_shapes (0, 0)%nat))%nat ->
    (i < snd (nth l grid_shapes (0, 0)%nat))%nat -> (k < 3)%nat ->
    At l b j i k (sized (5 + num_classes)) y_true.


Lemma py_index_in_range (len : nat) (i : Z) :
  (0 <= i < Z.of_nat len)%Z -> py_index len i = inr (Z.to_nat i).
Proof.
  intros [H0 H1]. unfold py_index.
  destruct (Z.leb_spec 0 i); [| lia]. destruct (Z.ltb_spec i (Z.of_nat len)); [| lia].
  reflexivity.
Qed.

Lemma apply_write_in_range (y_true : list Tensor5) (w : Write) :
  in_range w ->
  apply_write grid_shapes num_classes y_true w
  = ret (written (w_layer w) (w_image w) (Z.to_nat (w_row w)) (Z.to_nat (w_col w))
           (w_slot w) (Z.to_nat (5 + w_class w)) (w_box w) y_true).
Proof.
  intros [Hj [Hi [Hc _]]]. unfold apply_write.
  rewrite (py_index_in_range _ _ Hj), (py_index_in_range _ _ Hi).
  rewrite py_index_in_range by lia. reflexivity.
Qed.

Lemma sized_stamp ch box v :
  sized (5 + num_classes) v -> sized (5 + num_classes) (stamp ch box v).
Proof. unfold sized. rewrite length_stamp. auto. Qed.



End Writes.

(** A row whose centre lies in the image and whose class id is a class. *)
Definition row_ok (input_shape : nat * nat) (num_classes : nat) (r : TrueBox) : Prop :=
  (0 <= fst (boxes_xy r) /\ fst (boxes_xy r) < nat2Q (snd input_shape)) /\
  (0 <= snd (boxes_xy r) /\ snd (boxes_xy r) < nat2Q (fst input_shape)) /\
  (0 <= class_id r /\ class_id r < nat2Q num_classes).

Lemma Qfloor_range (v : Q) (g : nat) :
  0 <= v -> v < nat2Q g -> (0 <= Qfloor v < Z.of_nat g)%Z.
Proof.
  intros H0 H1. split.
  - change 0%Z with (Qfloor 0). apply Qfloor_resp_le. exact H0.
  - rewrite Zlt_Qlt. apply Qle_lt_trans with v; [apply Qfloor_le | exact H1].
Qed.

(** [floor(c / D * g)] is a cell index when [0 <= c < D]. *)
Lemma cell_index_range (c : Q) (dim g : nat) :
  0 <= c -> c < nat2Q dim -> (1 <= g)%nat ->
  (0 <= Qfloor (c / nat2Q dim * nat2Q g) < Z.of_nat g)%Z.
Proof.
  intros H0 H1 Hg.
  assert (HD : 0 < nat2Q dim) by (apply Qle_lt_trans with c; assumption).
  assert (HG : 0 < nat2Q g).
  { unfold nat2Q. change 0 with (inject_Z 0). rewrite <- Zlt_Qlt. lia. }
  assert (Hq0 : 0 <= c / nat2Q dim).
  { apply Qle_shift_div_l; [exact HD |]. rewrite Qmult_0_l. exact H0. }
  assert (Hq1 : c / nat2Q dim < 1).
  { apply Qlt_shift_div_r; [exact HD |]. rewrite Qmult_1_l. exact H1. }
  apply Qfloor_range.
  - apply Qmult_le_0_compat; [exact Hq0 | apply Qlt_le_weak; exact HG].
  - setoid_replace (nat2Q g) with (1 * nat2Q g) at 2 by ring.
    apply Qmult_lt_compat_r; assumption.
Qed.

Lemma class_index_range (c : Q) (num_classes : nat) :
  0 <= c -> c < nat2Q num_classes -> (0 <= Qtrunc c < Z.of_nat num_classes)%Z.
Proof.
  intros H0 H1. unfold Qtrunc.
  destruct (Qltb c 0) eqn:E.
  - apply Qltb_lt in E. exfalso. apply (Qlt_not_le _ _ E H0).
  - apply Qfloor_range; assumption.
Qed.

Lemma index_of_lt (n : nat) (l : list nat) (k : nat) :
  index_of n l = Some k -> (k < length l)%nat.
Proof.
  revert k. induction l as [| x l IH]; intros k H; cbn in H; [discriminate |].
  destruct (Nat.eqb x n).
  - inversion H. cbn. lia.
  - destruct (index_of n l) as [k' |]; [| discriminate].
    inversion H. cbn. specialize (IH k' eq_refl). lia.
Qed.

Lemma mask_length (num_layers l : nat) :
  (length (nth l (anchor_mask num_layers) []) <= 3)%nat.
Proof.
  unfold anchor_mask. destruct (Nat.eqb num_layers 3);
    destruct l as [| [| [| [| l]]]]; cbn; lia.
Qed.

Lemma box_writes_in_range grid_shapes num_classes m input_shape b r n :
  Forall (fun g => (1 <= fst g)%nat /\ (1 <= snd g)%nat) grid_shapes ->
  row_ok input_shape num_classes r -> (b < m)%nat ->
  Forall (in_range grid_shapes num_classes m)
    (box_writes (length grid_shapes) grid_shapes b (normalize input_shape r) n).
Proof.
  intros Hgs [[Hx0 Hx1] [[Hy0 Hy1] [Hc0 Hc1]]] Hb.
  apply Forall_forall. intros w Hw. unfold box_writes in Hw.
  apply in_flat_map in Hw. destruct Hw as [l [Hl Hw]].
  apply in_seq in Hl.
  destruct (mem n (nth l (anchor_mask (length grid_shapes)) [])); [| destruct Hw].
  destruct Hw as [<- | []].
  rewrite Forall_forall in Hgs.
  assert (Hg : (1 <= fst (nth l grid_shapes (0, 0)%nat))%nat /\
               (1 <= snd (nth l grid_shapes (0, 0)%nat))%nat).
  { apply Hgs. apply nth_In. lia. }
  unfold in_range. cbn [w_layer w_image w_row w_col w_slot w_class w_box
                        normalize x_min y_min class_id].
  split; [apply cell_index_range; [exact Hy0 | exact Hy1 | apply Hg] |].
  split; [apply cell_index_range; [exact Hx0 | exact Hx1 | apply Hg] |].
  split; [apply class_index_range; assumption |].
  split; [lia |]. split; [exact Hb |].
  pose proof (mask_length (length grid_shapes) l) as Hm.
  destruct (index_of n (nth l (anchor_mask (length grid_shapes)) [])) as [k |] eqn:E.
  - apply index_of_lt in E. lia.
  - lia.
Qed.

Lemma image_writes_in_range grid_shapes num_classes m input_shape b rows best :
  Forall (fun g => (1 <= fst g)%nat /\ (1 <= snd g)%nat) grid_shapes ->
  Forall (row_ok input_shape num_classes) rows -> (b < m)%nat ->
  (length best <= length rows)%nat ->
  Forall (in_range grid_shapes num_classes m)
    (image_writes (length grid_shapes) grid_shapes b
       (map (normalize input_shape) rows) best).
Proof.
  intros Hgs Hrows Hb Hlen. apply Forall_forall. intros w Hw.
  unfold image_writes in Hw. apply in_flat_map in Hw.
  destruct Hw as [[t n] [Htn Hw]]. cbn [fst snd] in Hw.
  apply in_combine_l in Htn. apply in_seq in Htn.
  assert (Ht : (t < length rows)%nat) by lia.
  rewrite (nth_indep _ dummy_row (normalize input_shape dummy_row)) in Hw
    by (rewrite length_map; exact Ht).
  rewrite map_nth in Hw.
  assert (Hr : row_ok input_shape num_classes (nth t rows dummy_row)).
  { rewrite Forall_forall in Hrows. apply Hrows. apply nth_In. exact Ht. }
  pose proof (box_writes_in_range grid_shapes num_classes m input_shape b _ n
                Hgs Hr Hb) as H.
  rewrite Forall_forall in H. apply H. exact Hw.
Qed.



Lemma class_ids_ok_rows true_boxes input_shape num_classes :
  Forall (Forall (row_ok input_shape num_classes)) true_boxes ->
  class_ids_ok true_boxes num_classes = true.
Proof.
  intros H. unfold class_ids_ok. apply forallb_forall. intros rows Hrows.
  apply forallb_forall. intros r Hr. apply Qltb_lt.
  rewrite Forall_forall in H. specialize (H rows Hrows).
  rewrite Forall_forall in H. destruct (H r Hr) as [_ [_ [_ Hc]]]. exact Hc.
Qed.

(** The grids of the 3-scale model. *)
Definition grids3 (input_shape : nat * nat) : list (nat * nat) :=
  [(Nat.div (fst input_shape) 32, Nat.div (snd input_shape) 32);
   (Nat.div (fst input_shape) 16, Nat.div (snd input_shape) 16);
   (Nat.div (fst input_shape) 8, Nat.div (snd input_shape) 8)].

Definition zeros3 (input_shape : nat * nat) (num_classes m : nat) : list Tensor5 :=
  map (fun g => repeat (repeat (repeat (repeat (repeat 0 (5 + num_classes)) 3)
                                  (snd g)) (fst g)) m)
      (grids3 input_shape).

Lemma grids3_positive input_shape :
  (32 <= fst input_shape)%nat -> (32 <= snd input_shape)%nat ->
  Forall (fun g => (1 <= fst g)%nat /\ (1 <= snd g)%nat) (grids3 input_shape).
Proof.
  intros Hh Hw. unfold grids3.
  repeat constructor; cbn [fst snd];
    apply Nat.div_le_lower_bound; lia.
Qed.

Lemma zeros3_all_slots input_shape num_classes m :
  all_slots (grids3 input_shape) num_classes m (zeros3 input_shape num_classes m).
Proof.
  intros l b j i k Hl Hb Hj Hi Hk. unfold At, zeros3, grids3 in *.
  cbn [length] in Hl.
  destruct l as [| [| [| l]]]; [| | | lia]; cbn [nth fst snd map] in *;
    (eexists; split; [reflexivity |]);
    repeat (apply On_repeat; [assumption |]); apply repeat_length.
Qed.

Lemma preprocess_three_scale true_boxes input_shape anchors num_classes st :
  class_ids_ok true_boxes num_classes = true ->
  Nat.div (length anchors) 3 = 3%nat ->
  preprocess_true_boxes true_boxes input_shape anchors num_classes st
  = foldM (process_image anchors 3 (grids3 input_shape) input_shape num_classes)
          (combine (seq 0 (length true_boxes)) true_boxes)
          (zeros3 input_shape num_classes (length true_boxes)) (3 + st)%nat.
Proof.
  intros Hok Hnl. unfold preprocess_true_boxes. rewrite Hok, Hnl. reflexivity.
Qed.


End OutputFacts.

(** ** Utilities: [compose] and the letterbox geometry (yolo3/utils.py) *)

Module Utils.

Import QAux Py.
Local Open Scope Q_scope.

(** [functools.reduce(op, seq)] without an initial value. *)
Definition reduce {A} (op : A -> A -> A) (l : list A) : option A :=
  match l with
  | [] => None
  | x :: r => Some (fold_left op r x)
  end.

(** [compose]: [reduce] over the given functions with the operation that
    maps [f] and [g] to the function applying [f], then [g]; a [ValueError]
    for no function at all. *)
Definition compose {A} (funcs : list (A -> A)) : Exn + (A -> A) :=
  match funcs with
  | [] => inl ValueError
  | _ => match reduce (fun f g => fun a => g (f a)) funcs with
         | Some h => inr h
         | None => inl ValueError
         end
  end.

(** The line the source keeps as a comment:
    [lambda x: reduce(lambda v, f: f(v), funcs, x)]. *)
Definition apply_in_turn {A} (funcs : list (A -> A)) (x : A) : A :=
  fold_left (fun v f => f v) funcs x.



End Utils.

Module UtilsFacts.

Import QAux Py Utils.
Local Open Scope Q_scope.

Lemma fold_compose {A} (r : list (A -> A)) :
  forall (f : A -> A) (x : A),
    fold_left (fun f g => fun a => g (f a)) r f x = apply_in_turn r (f x).
Proof.
  induction r as [| g r IH]; intros f x; [reflexivity |].
  cbn [fold_left]. rewrite IH. reflexivity.
Qed.

(** X1: [compose] fails exactly on the empty sequence, with [ValueError];
    otherwise the function it returns applies the given functions in turn,
    left to right. *)
Theorem compose_applies_in_turn :
  forall (A : Type) (funcs : list (A -> A)),
    match compose funcs with
    | inr h => funcs <> [] /\ forall x, h x = apply_in_turn funcs x
    | inl e => e = ValueError /\ funcs = []
    end.
Proof.
  intros A [| f r]; cbn; [auto |].
  split; [discriminate |]. intros x. apply fold_compose.
Qed.

(** X2: composing a concatenation is composing the compositions: the
    functions of the first sequence run before those of the second. *)
Theorem compose_app :
  forall (A : Type) (fs gs : list (A -> A)) (hf hg : A -> A),
    compose fs = inr hf -> compose gs = inr hg ->
    exists h, compose (fs ++ gs) = inr h /\ forall x, h x = hg (hf x).
Proof.
  intros A fs gs hf hg Hf Hg.
  destruct fs as [| f fr]; [discriminate |].
  destruct gs as [| g gr]; [discriminate |].
  cbn in Hf, Hg. inversion Hf; inversion Hg; subst. clear Hf Hg.
  eexists. split; [reflexivity |].
  intros x. cbn [app]. rewrite !fold_compose.
  unfold apply_in_turn. rewrite fold_left_app. cbn [fold_left]. reflexivity.
Qed.

Lemma compose_app_witness :
  exists h, compose ([Z.succ; Z.double] ++ [Z.opp]) = inr h /\
            forall x, h x = Z.opp (Z.double (Z.succ x)).
Proof.
  apply (compose_app Z [Z.succ; Z.double] [Z.opp]
           (fun a => Z.double (Z.succ a)) Z.opp); reflexivity.
Defined.




Lemma inject_Z_pos (z : Z) : (0 < z)%Z -> 0 < inject_Z z.
Proof. intros H. change 0 with (inject_Z 0). rewrite <- Zlt_Qlt. exact H. Qed.





End UtilsFacts.

(** ** Ground-truth boxes of a training sample: [get_random_data] (yolo3/utils.py) *)

Module Data.

Import QAux Py Assigner Utils.
Local Open Scope Q_scope.

(** One box of the annotation line, an integer row
    [x_min, y_min, x_max, y_max, class_id]: [box] is an integer array, so
    every assignment into it truncates. *)
Record IBox : Type := mkIBox { ix1 : Z; iy1 : Z; ix2 : Z; iy2 : Z; icls : Z }.

(** A row of the float array [box_data]. *)
Definition to_row (b : IBox) : TrueBox :=
  mkTrueBox (inject_Z (ix1 b)) (inject_Z (iy1 b)) (inject_Z (ix2 b))
            (inject_Z (iy2 b)) (inject_Z (icls b)).

(** [box_data = np.zeros((max_boxes, 5)); box_data[:len(box)] = box] *)
Definition box_data (max_boxes : nat) (box : list IBox) : list TrueBox :=
  map to_row box ++ repeat dummy_row (max_boxes - List.length box).

(** [if len(box) > max_boxes: box = box[:max_boxes]] *)
Definition truncate (max_boxes : nat) (box : list IBox) : list IBox :=
  if (max_boxes <? List.length box)%nat then firstn max_boxes box else box.

(** [rand(low, high)] for a draw [u] of [np.random.rand()]. *)
Definition rand (u low high : Q) : Q := u * (high - low) + low.

Section Shuffled.

(** [np.random.shuffle]: some rearrangement of the rows. *)
Variable shuffle : list IBox -> list IBox.



(** The draws the randomized branch makes before it touches the boxes, in
    the order of the calls. *)
Record Draws : Type := mkDraws
  { u_ar_num : Q; u_ar_den : Q; u_scale : Q; u_dx : Q; u_dy : Q; u_flip : Q }.

(** The resized size [(nw, nh)], the placement [(dx, dy)] and [flip]. *)
Record Placement : Type := mkPlacement
  { p_nw : Z; p_nh : Z; p_dx : Z; p_dy : Z; p_flip : bool }.

Definition placement (d : Draws) (input_shape : Z * Z) (jitter : Q) : Placement :=
  let h := fst input_shape in
  let w := snd input_shape in
  let new_ar := inject_Z w / inject_Z h * rand (u_ar_num d) (1 - jitter) (1 + jitter)
                / rand (u_ar_den d) (1 - jitter) (1 + jitter) in
  let scale := rand (u_scale d) (25 # 100) 2 in
  let nh_nw :=
    if Qltb new_ar 1 then
      let nh := Qtrunc (scale * inject_Z h) in
      (nh, Qtrunc (inject_Z nh * new_ar))
    else
      let nw := Qtrunc (scale * inject_Z w) in
      (Qtrunc (inject_Z nw / new_ar), nw) in
  let nh := fst nh_nw in
  let nw := snd nh_nw in
  {| p_nw := nw; p_nh := nh;
     p_dx := Qtrunc (rand (u_dx d) 0 (inject_Z (w - nw)));
     p_dy := Qtrunc (rand (u_dy d) 0 (inject_Z (h - nh)));
     p_flip := Qltb (rand (u_flip d) 0 1) (5 # 10) |}.

(** [box[:, [0, 2]] = box[:, [0, 2]] * nw / iw + dx] and the same for y. *)
Definition rescale (p : Placement) (iw ih : Z) (b : IBox) : IBox :=
  {| ix1 := Qtrunc (inject_Z (ix1 b * p_nw p) / inject_Z iw + inject_Z (p_dx p));
     iy1 := Qtrunc (inject_Z (iy1 b * p_nh p) / inject_Z ih + inject_Z (p_dy p));
     ix2 := Qtrunc (inject_Z (ix2 b * p_nw p) / inject_Z iw + inject_Z (p_dx p));
     iy2 := Qtrunc (inject_Z (iy2 b * p_nh p) / inject_Z ih + inject_Z (p_dy p));
     icls := icls b |}.

(** [if flip: box[:, [0, 2]] = w - box[:, [2, 0]]] *)
Definition flip_box (w : Z) (b : IBox) : IBox :=
  {| ix1 := (w - ix2 b)%Z; iy1 := iy1 b; ix2 := (w - ix1 b)%Z; iy2 := iy2 b;
     icls := icls b |}.

(** [box[:, 0:2][box[:, 0:2] < 0] = 0], [box[:, 2][box[:, 2] > w] = w],
    [box[:, 3][box[:, 3] > h] = h] *)
Definition clip (w h : Z) (b : IBox) : IBox :=
  {| ix1 := if (ix1 b <? 0)%Z then 0%Z else ix1 b;
     iy1 := if (iy1 b <? 0)%Z then 0%Z else iy1 b;
     ix2 := if (w <? ix2 b)%Z then w else ix2 b;
     iy2 := if (h <? iy2 b)%Z then h else iy2 b;
     icls := icls b |}.

(** [np.logical_and(box_w > 1, box_h > 1)] *)
Definition big_enough (b : IBox) : bool :=
  (1 <? ix2 b - ix1 b)%Z && (1 <? iy2 b - iy1 b)%Z.

(** The boxes kept by the randomized branch, before padding. *)
Definition corrected (d : Draws) (iw ih : Z) (input_shape : Z * Z) (jitter : Q)
    (max_boxes : nat) (box : list IBox) : list IBox :=
  let h := fst input_shape in
  let w := snd input_shape in
  let p := placement d input_shape jitter in
  let box := shuffle box in
  let box := map (rescale p iw ih) box in
  let box := if p_flip p then map (flip_box w) box else box in
  let box := map (clip w h) box in
  let box := filter big_enough box in
  truncate max_boxes box.

(** [get_random_data(..., randomize=True)], the boxes it returns. *)
Definition get_random_data_random (d : Draws) (iw ih : Z) (input_shape : Z * Z)
    (jitter : Q) (max_boxes : nat) (box : list IBox) : list TrueBox :=
  if (0 <? List.length box)%nat
  then box_data max_boxes (corrected d iw ih input_shape jitter max_boxes box)
  else box_data max_boxes [].

End Shuffled.

End Data.

Module DataFacts.

Import QAux Py Assigner AssignFacts Utils UtilsFacts Data.
Local Open Scope Q_scope.

(** What the randomized branch guarantees of a box it keeps. *)
Definition clipped (input_shape : Z * Z) (b : IBox) : Prop :=
  (0 <= ix1 b)%Z /\ (0 <= iy1 b)%Z /\
  (ix2 b <= snd input_shape)%Z /\ (iy2 b <= fst input_shape)%Z /\
  (1 < ix2 b - ix1 b)%Z /\ (1 < iy2 b - iy1 b)%Z.

Lemma truncate_length max_boxes box :
  (List.length (truncate max_boxes box) <= max_boxes)%nat.
Proof.
  unfold truncate. destruct (Nat.ltb_spec max_boxes (List.length box)).
  - rewrite firstn_length_le; lia.
  - lia.
Qed.

Lemma truncate_incl max_boxes box b : In b (truncate max_boxes box) -> In b box.
Proof.
  unfold truncate. destruct (max_boxes <? List.length box)%nat; [| auto].
  intros H. rewrite <- (firstn_skipn max_boxes box). apply in_or_app. left. exact H.
Qed.

Lemma clip_bounds w h b :
  (0 <= ix1 (clip w h b))%Z /\ (0 <= iy1 (clip w h b))%Z /\
  (ix2 (clip w h b) <= w)%Z /\ (iy2 (clip w h b) <= h)%Z.
Proof.
  unfold clip. cbn.
  destruct (Z.ltb_spec (ix1 b) 0); destruct (Z.ltb_spec (iy1 b) 0);
    destruct (Z.ltb_spec w (ix2 b)); destruct (Z.ltb_spec h (iy2 b)); lia.
Qed.

Lemma corrected_clipped shuffle d iw ih input_shape jitter max_boxes box :
  Forall (clipped input_shape)
    (corrected shuffle d iw ih input_shape jitter max_boxes box).
Proof.
  apply Forall_forall. intros b Hb. unfold corrected in Hb.
  apply truncate_incl in Hb. apply filter_In in Hb. destruct Hb as [Hin Hbig].
  apply in_map_iff in Hin. destruct Hin as [b0 [<- _]].
  destruct (clip_bounds (snd input_shape) (fst input_shape) b0) as [H1 [H2 [H3 H4]]].
  unfold big_enough in Hbig. apply andb_true_iff in Hbig.
  destruct Hbig as [Hw Hh]. apply Z.ltb_lt in Hw. apply Z.ltb_lt in Hh.
  unfold clipped. auto 10.
Qed.

Lemma valid_to_row_clipped input_shape b :
  clipped input_shape b -> valid (to_row b) = true.
Proof.
  intros [_ [_ [_ [_ [Hw _]]]]]. unfold valid, boxes_wh, to_row. cbn [fst x_max x_min].
  apply Qltb_lt. unfold Qminus. rewrite <- inject_Z_opp, <- inject_Z_plus.
  apply inject_Z_pos. lia.
Qed.

Lemma valid_first_box_data input_shape max_boxes kept :
  Forall (clipped input_shape) kept ->
  valid_first (map to_row kept) (repeat dummy_row (max_boxes - List.length kept)).
Proof.
  intros H. split.
  - apply Forall_map. revert H. apply Forall_impl. intros b.
    apply valid_to_row_clipped.
  - apply Forall_forall. intros r Hr. apply repeat_spec in Hr. subst r. reflexivity.
Qed.

(** X4: whatever the draws, the image and the annotation, the randomized
    branch returns exactly [max_boxes] rows: first the boxes it keeps, each
    inside the network input with width and height above 1, then all-zero
    rows.  The rows of positive width therefore come first. *)
Theorem random_data_boxes_clipped_then_padding :
  forall shuffle d iw ih input_shape jitter max_boxes box,
    let rows := get_random_data_random shuffle d iw ih input_shape jitter
                  max_boxes box in
    exists kept,
      rows = map to_row kept ++ repeat dummy_row (max_boxes - List.length kept) /\
      (List.length kept <= max_boxes)%nat /\
      List.length rows = max_boxes /\
      Forall (clipped input_shape) kept /\
      valid_first (map to_row kept) (repeat dummy_row (max_boxes - List.length kept)).
Proof.
  intros shuffle d iw ih input_shape jitter max_boxes box rows. subst rows.
  unfold get_random_data_random.
  destruct (0 <? List.length box)%nat.
  - exists (corrected shuffle d iw ih input_shape jitter max_boxes box).
    pose proof (truncate_length max_boxes
                  (filter big_enough
                     (map (clip (snd input_shape) (fst input_shape))
                        (if p_flip (placement d input_shape jitter)
                         then map (flip_box (snd input_shape))
                                (map (rescale (placement d input_shape jitter) iw ih)
                                   (shuffle box))
                         else map (rescale (placement d input_shape jitter) iw ih)
                                (shuffle box))))) as Hlen.
    change (truncate max_boxes _)
      with (corrected shuffle d iw ih input_shape jitter max_boxes box) in Hlen.
    pose proof (corrected_clipped shuffle d iw ih input_shape jitter max_boxes box)
      as Hc.
    refine (conj eq_refl (conj Hlen (conj _ (conj Hc _)))).
    + unfold box_data. rewrite length_app, length_map, repeat_length. lia.
    + exact (valid_first_box_data input_shape max_boxes _ Hc).
  - exists []. cbn [map List.length app].
    refine (conj eq_refl (conj _ (conj _ (conj (Forall_nil _) _)))).
    + lia.
    + unfold box_data. cbn [map List.length app]. rewrite repeat_length. lia.
    + exact (valid_first_box_data input_shape max_boxes [] (Forall_nil _)).
Qed.








Section Batch.

Variable shuffle : list IBox -> list IBox.
Hypothesis shuffle_permutes : forall l, Permutation (shuffle l) l.


Variables (h w : nat) (jitter : Q) (max_boxes : nat).




End Batch.









End DataFacts.

(** ** Shapes of the targets: [preprocess_true_boxes] against [create_model] *)

Module Shapes.

Import QAux Py Assigner.
Local Open Scope Q_scope.





End Shapes.

Module ShapeFacts.

Import QAux Py Assigner Shapes.
Local Open Scope Q_scope.




Section Preserved.

Variables (m : nat) (dims : list (nat * nat * nat * nat)).






End Preserved.


End ShapeFacts.

Module ModelInputs.

Import QAux Py Assigner Shapes ShapeFacts.
Local Open Scope Q_scope.










End ModelInputs.

(** ** Slots written more than once *)

Module Overwrite.

Import QAux Py Assigner AssignFacts OutputFacts.
Local Open Scope Q_scope.

(** The index tuple [(l, b, j, i, k)] a write assigns to. *)
Definition pos (w : Write) : nat * nat * nat * nat * nat :=
  (w_layer w, w_image w, Z.to_nat (w_row w), Z.to_nat (w_col w), w_slot w).

Definition AtPos (w : Write) (g : list Q -> Prop) (y_true : list Tensor5) : Prop :=
  At (w_layer w) (w_image w) (Z.to_nat (w_row w)) (Z.to_nat (w_col w)) (w_slot w)
     g y_true.

(** Objectness and the channel of class [c] are 1. *)
Definition labelled (n c : nat) (v : list Q) : Prop :=
  length v = n /\ nth 4 v 0 = 1 /\ nth (5 + c) v 0 = 1.

(** Channels [0:4] are the four numbers of [box]. *)
Definition holds (box : TrueBox) (v : list Q) : Prop :=
  nth 0 v 0 = x_min box /\ nth 1 v 0 = y_min box /\
  nth 2 v 0 = x_max box /\ nth 3 v 0 = y_max box.

(** All the writes of a batch, in the order the loops make them: image by
    image, row by row, scale by scale. *)
Definition batch_writes (anchors : list (Q * Q)) (grid_shapes : list (nat * nat))
    (input_shape : nat * nat) (k : nat) (imgs : list (list TrueBox)) : list Write :=
  flat_map
    (fun brows =>
       image_writes (length grid_shapes) grid_shapes (fst brows)
         (map (normalize input_shape) (snd brows))
         (map (fun wh => first_argmax (iou_row anchors wh)) (valid_wh (snd brows))))
    (combine (seq k (length imgs)) imgs).

Lemma On_upd_when {A} (g : A -> Prop) (f : A -> A) (n m : nat) (l : list A) :
  (n = m -> forall x, g x -> g (f x)) -> On m g l -> On m g (upd n f l).
Proof.
  revert n m. induction l as [| x l IH]; intros n m Hf [z [Hz Hg]].
  - destruct m; discriminate.
  - destruct n as [| n]; destruct m as [| m]; cbn in *.
    + inversion Hz; subst. exists (f z). auto.
    + exists z. auto.
    + exists z. auto.
    + apply IH; [intros E; apply Hf; congruence |]. exists z. auto.
Qed.

(** A write leaves every other slot as it was. *)
Lemma At_written_other (g : list Q -> Prop) l b j i k l' b' j' i' k' ch box y_true :
  (l', b', j', i', k') <> (l, b, j, i, k) ->
  At l b j i k g y_true -> At l b j i k g (written l' b' j' i' k' ch box y_true).
Proof.
  intros Hne. unfold At, written.
  apply On_upd_when. intros El t. apply On_upd_when. intros Eb img.
  apply On_upd_when. intros Ej row. apply On_upd_when. intros Ei cell.
  apply On_upd_when. intros Ek v _. exfalso. apply Hne. congruence.
Qed.

Lemma nth_set4_other box (n : nat) (v : list Q) :
  (4 <= n)%nat -> nth n (set4 box v) 0 = nth n v 0.
Proof.
  intros H. unfold set4. rewrite !nth_upd_other by lia. reflexivity.
Qed.

Lemma labelled_stamp_keep n c ch box v :
  labelled n c v -> labelled n c (stamp ch box v).
Proof.
  intros [Hlen [H4 Hc]]. unfold labelled. rewrite length_stamp.
  split; [exact Hlen |]. split.
  - apply stamp_objectness.
    destruct (Nat.lt_ge_cases 4 (length v)) as [Hlt | Hge]; [exact Hlt |].
    rewrite nth_overflow in H4 by lia. discriminate.
  - unfold stamp.
    destruct (nth_upd_const 1 0 ch (5 + c) (upd 4 (fun _ => 1) (set4 box v)))
      as [E | E]; rewrite E; [reflexivity |].
    rewrite nth_upd_other by lia. rewrite nth_set4_other by lia. exact Hc.
Qed.

Lemma labelled_stamp_new n c box v :
  sized n v -> (5 + c < n)%nat -> labelled n c (stamp (5 + c) box v).
Proof.
  unfold sized. intros Hlen Hc. unfold labelled. rewrite length_stamp.
  split; [exact Hlen |]. split.
  - apply stamp_objectness. lia.
  - unfold stamp. apply nth_upd_same_const.
    unfold set4. rewrite !length_upd. lia.
Qed.

Lemma holds_stamp ch box v :
  (4 <= length v)%nat -> (5 <= ch)%nat -> holds box (stamp ch box v).
Proof.
  intros Hlen Hch. unfold holds, stamp, set4.
  repeat (apply conj).
  - rewrite 5!nth_upd_other by lia. apply nth_upd_same_const. lia.
  - rewrite 4!nth_upd_other by lia. apply nth_upd_same_const.
    rewrite !length_upd. lia.
  - rewrite 3!nth_upd_other by lia. apply nth_upd_same_const.
    rewrite !length_upd. lia.
  - rewrite 2!nth_upd_other by lia. apply nth_upd_same_const.
    rewrite !length_upd. lia.
Qed.

Lemma foldM_app {A T} (f : T -> A -> M T) (l1 l2 : list A) (s : T) (st : nat) :
  foldM f (l1 ++ l2) s st = bind (foldM f l1 s) (foldM f l2) st.
Proof.
  revert s st. induction l1 as [| x l1 IH]; intros s st; [reflexivity |].
  cbn [app foldM]. unfold bind in *.
  destruct (f s x st) as [[e | s1] st1]; [reflexivity |].
  apply IH.
Qed.

Section Folds.

Variable grid_shapes : list (nat * nat).
Variable num_classes : nat.
Variable m : nat.

Let in_range := in_range grid_shapes num_classes m.
Let all_slots := all_slots grid_shapes num_classes m.
Let step := apply_write grid_shapes num_classes.

Lemma written_all_slots y_true w :
  all_slots y_true ->
  all_slots (written (w_layer w) (w_image w) (Z.to_nat (w_row w)) (Z.to_nat (w_col w))
               (w_slot w) (Z.to_nat (5 + w_class w)) (w_box w) y_true).
Proof.
  intros Hall l b j i k Hl Hb Hj Hi Hk. apply At_written_any.
  - intros v. apply sized_stamp.
  - apply Hall; assumption.
Qed.

Lemma in_range_slot y_true w :
  all_slots y_true -> in_range w -> AtPos w (sized (5 + num_classes)) y_true.
Proof.
  intros Hall [Hj [Hi [_ [Hl [Hb Hk]]]]]. apply Hall; try assumption; lia.
Qed.

(** Each write within range leaves its slot with objectness and its class
    channel set, and no later write clears either. *)
Lemma fold_writes_labels :
  forall (ws : list Write) (y_true : list Tensor5) (st : nat),
    all_slots y_true -> Forall in_range ws ->
    exists y',
      foldM step ws y_true st = (inr y', st) /\
      all_slots y' /\
      (forall w c, AtPos w (labelled (5 + num_classes) c) y_true ->
                   AtPos w (labelled (5 + num_classes) c) y') /\
      (forall w, In w ws ->
                 AtPos w (labelled (5 + num_classes) (Z.to_nat (w_class w))) y').
Proof.
  induction ws as [| w ws IH]; intros y_true st Hall Hws.
  - exists y_true. cbn. split; [reflexivity |]. split; [exact Hall |].
    split; [auto |]. intros w [].
  - inversion Hws as [| ? ? Hw Hrest]; subst.
    cbn [foldM]. unfold bind. rewrite (apply_write_in_range _ _ _ _ _ Hw). cbn [ret].
    set (y1 := written _ _ _ _ _ _ _ y_true).
    assert (Hall1 : all_slots y1) by (apply written_all_slots; exact Hall).
    assert (Hkeep : forall w' c, AtPos w' (labelled (5 + num_classes) c) y_true ->
                                 AtPos w' (labelled (5 + num_classes) c) y1).
    { intros w' c H. apply At_written_any; [| exact H].
      intros v. apply labelled_stamp_keep. }
    assert (Hnew : AtPos w (labelled (5 + num_classes) (Z.to_nat (w_class w))) y1).
    { apply (At_written_same (sized (5 + num_classes))).
      - intros v Hv. destruct Hw as [_ [_ [Hc _]]].
        replace (Z.to_nat (5 + w_class w)) with (5 + Z.to_nat (w_class w))%nat by lia.
        apply labelled_stamp_new; [exact Hv | lia].
      - apply in_range_slot; assumption. }
    destruct (IH y1 st Hall1 Hrest) as [y' [Hrun [Hall' [Hkeep' Hin']]]].
    exists y'. split; [exact Hrun |]. split; [exact Hall' |]. split.
    + intros w' c H. apply Hkeep', Hkeep, H.
    + intros w' [<- | H]; [apply Hkeep', Hnew | apply Hin', H].
Qed.

(** Writes to other slots leave a slot untouched. *)
Lemma fold_writes_elsewhere (g : list Q -> Prop) (w : Write) :
  forall (ws : list Write) (y_true : list Tensor5) (st : nat) y',
    Forall in_range ws -> Forall (fun w' => pos w' <> pos w) ws ->
    foldM step ws y_true st = (inr y', st) ->
    AtPos w g y_true -> AtPos w g y'.
Proof.
  induction ws as [| w' ws IH]; intros y_true st y' Hws Hne Hrun Hg.
  - cbn in Hrun. injection Hrun as <-. exact Hg.
  - inversion Hws as [| ? ? Hw' Hrest]; subst.
    inversion Hne as [| ? ? Hne' Hnerest]; subst.
    cbn [foldM] in Hrun. unfold bind in Hrun.
    rewrite (apply_write_in_range _ _ _ _ _ Hw') in Hrun. cbn [ret] in Hrun.
    apply (IH _ st y' Hrest Hnerest Hrun).
    apply At_written_other; [exact Hne' | exact Hg].
Qed.

(** After all the writes, a slot holds the four numbers of the last write
    addressed to it. *)
Lemma fold_writes_last :
  forall (ws1 ws2 : list Write) (w : Write) (y_true : list Tensor5) (st : nat) y',
    all_slots y_true -> Forall in_range (ws1 ++ w :: ws2) ->
    Forall (fun w' => pos w' <> pos w) ws2 ->
    foldM step (ws1 ++ w :: ws2) y_true st = (inr y', st) ->
    AtPos w (holds (w_box w)) y'.
Proof.
  intros ws1 ws2 w y_true st y' Hall Hws Hne Hrun.
  apply Forall_app in Hws. destruct Hws as [Hws1 Hws2].
  inversion Hws2 as [| ? ? Hw Hrest]; subst.
  destruct (fold_writes_labels ws1 y_true st Hall Hws1) as [y1 [Hrun1 [Hall1 _]]].
  rewrite foldM_app in Hrun. unfold bind in Hrun. rewrite Hrun1 in Hrun.
  cbn [foldM] in Hrun. unfold bind in Hrun.
  rewrite (apply_write_in_range _ _ _ _ _ Hw) in Hrun. cbn [ret] in Hrun.
  apply (fold_writes_elsewhere _ w ws2 _ st y' Hrest Hne Hrun).
  apply (At_written_same (sized (5 + num_classes))).
  - intros v Hv. destruct Hw as [_ [_ [Hc _]]]. unfold sized in Hv.
    apply holds_stamp; lia.
  - apply in_range_slot; assumption.
Qed.

End Folds.

Lemma image_writes_nil num_layers grid_shapes b nrows :
  image_writes num_layers grid_shapes b nrows [] = [].
Proof. reflexivity. Qed.

(** With at least one anchor, the work on one image is the run of its
    writes. *)
Lemma process_image_as_writes anchors grid_shapes input_shape num_classes y_true
    b rows st :
  anchors <> [] ->
  process_image anchors (length grid_shapes) grid_shapes input_shape num_classes
    y_true (b, rows) st
  = foldM (apply_write grid_shapes num_classes)
          (image_writes (length grid_shapes) grid_shapes b
             (map (normalize input_shape) rows)
             (map (fun wh => first_argmax (iou_row anchors wh)) (valid_wh rows)))
          y_true st.
Proof.
  intros Hne. unfold process_image.
  destruct (valid_wh rows) as [| wh whs] eqn:E.
  - reflexivity.
  - rewrite (best_anchor_map anchors (wh :: whs) Hne). reflexivity.
Qed.

Lemma fold_images_as_writes anchors grid_shapes input_shape num_classes :
  anchors <> [] ->
  forall (imgs : list (list TrueBox)) (k : nat) (y_true : list Tensor5) (st : nat),
    foldM (process_image anchors (length grid_shapes) grid_shapes input_shape
             num_classes)
          (combine (seq k (length imgs)) imgs) y_true st
    = foldM (apply_write grid_shapes num_classes)
            (batch_writes anchors grid_shapes input_shape k imgs) y_true st.
Proof.
  intros Hne. induction imgs as [| rows imgs IH]; intros k y_true st;
    [reflexivity |].
  unfold batch_writes. cbn [length seq combine flat_map fst snd foldM].
  rewrite foldM_app. unfold bind.
  rewrite (process_image_as_writes _ _ _ _ _ _ _ _ Hne).
  destruct (foldM (apply_write grid_shapes num_classes) _ y_true st)
    as [[e | y1] st1]; [reflexivity |].
  apply IH.
Qed.

Lemma batch_writes_in_range anchors grid_shapes input_shape num_classes m :
  Forall (fun g => (1 <= fst g)%nat /\ (1 <= snd g)%nat) grid_shapes ->
  forall (imgs : list (list TrueBox)) (k : nat),
    (k + length imgs <= m)%nat ->
    Forall (Forall (row_ok input_shape num_classes)) imgs ->
    Forall (in_range grid_shapes num_classes m)
      (batch_writes anchors grid_shapes input_shape k imgs).
Proof.
  intros Hgs. induction imgs as [| rows imgs IH]; intros k Hk Himgs;
    [constructor |].
  inversion Himgs as [| ? ? Hrows Hrest]; subst. cbn [length] in Hk.
  unfold batch_writes. cbn [length seq combine flat_map fst snd].
  apply Forall_app. split.
  - apply image_writes_in_range; [exact Hgs | exact Hrows | lia |].
    rewrite length_map. unfold valid_wh. rewrite length_map. apply filter_length_le.
  - apply IH; [lia | exact Hrest].
Qed.

(** The 3-scale call as one run of writes over the zero arrays. *)
Lemma preprocess_as_writes true_boxes input_shape anchors num_classes :
  length anchors = 9%nat ->
  Forall (Forall (row_ok input_shape num_classes)) true_boxes ->
  run (preprocess_true_boxes true_boxes input_shape anchors num_classes)
  = foldM (apply_write (grids3 input_shape) num_classes)
          (batch_writes anchors (grids3 input_shape) input_shape 0 true_boxes)
          (zeros3 input_shape num_classes (length true_boxes)) 3%nat.
Proof.
  intros Hlen Hrows. unfold run.
  rewrite (preprocess_three_scale _ _ _ _ _ (class_ids_ok_rows _ _ _ Hrows))
    by (rewrite Hlen; reflexivity).
  assert (Hne : anchors <> []) by (intros ->; discriminate).
  exact (fold_images_as_writes anchors (grids3 input_shape) input_shape num_classes
           Hne true_boxes 0 _ _).
Qed.

(** Two boxes of different classes whose centres fall in the same cell and
    that pick the same anchor. *)
Definition shared_cell_batch : list (list TrueBox) :=
  [[mkTrueBox 100 100 200 200 0; mkTrueBox 104 104 204 204 1]].

(** X8.  With nine anchors, an input of at least 32 x 32 and rows whose
    centres lie in the image and whose class ids are classes, the call
    returns, and for every write the loops make the slot it addresses ends
    with objectness 1 and with the class channel of that write equal to 1:
    a later box landing in the same slot adds its own class channel and
    never clears an earlier one, so a slot shared by boxes of different
    classes has several class channels set. *)
Theorem shared_slot_keeps_every_class :
  forall true_boxes input_shape anchors num_classes,
    length anchors = 9%nat ->
    (32 <= fst input_shape)%nat -> (32 <= snd input_shape)%nat ->
    Forall (Forall (row_ok input_shape num_classes)) true_boxes ->
    exists y_true,
      run (preprocess_true_boxes true_boxes input_shape anchors num_classes)
      = (inr y_true, 3%nat) /\
      forall w,
        In w (batch_writes anchors (grids3 input_shape) input_shape 0 true_boxes) ->
        AtPos w (labelled (5 + num_classes) (Z.to_nat (w_class w))) y_true.
Proof.
  intros true_boxes input_shape anchors num_classes Hlen Hh Hw Hrows.
  rewrite (preprocess_as_writes _ _ _ _ Hlen Hrows).
  destruct (fold_writes_labels (grids3 input_shape) num_classes (length true_boxes)
              (batch_writes anchors (grids3 input_shape) input_shape 0 true_boxes)
              (zeros3 input_shape num_classes (length true_boxes)) 3%nat
              (zeros3_all_slots _ _ _)
              (batch_writes_in_range anchors _ input_shape num_classes _
                 (grids3_positive input_shape Hh Hw) true_boxes 0
                 (Nat.le_refl _) Hrows))
    as [y' [Hrun [_ [_ Hin]]]].
  exists y'. split; [exact Hrun | exact Hin].
Qed.

Ltac rows_ok :=
  repeat constructor; unfold row_ok; repeat (apply conj);
  first [ vm_compute; reflexivity | vm_compute; discriminate ].

Lemma shared_slot_witness :
  exists y_true,
    run (preprocess_true_boxes shared_cell_batch (416, 416)%nat yolo_anchors 2)
    = (inr y_true, 3%nat) /\
    forall w,
      In w (batch_writes yolo_anchors (grids3 (416, 416)%nat) (416, 416)%nat 0
              shared_cell_batch) ->
      AtPos w (labelled (5 + 2) (Z.to_nat (w_class w))) y_true.
Proof.
  apply (shared_slot_keeps_every_class shared_cell_batch (416, 416)%nat yolo_anchors 2).
  - reflexivity.
  - cbn. lia.
  - cbn. lia.
  - unfold shared_cell_batch. rows_ok.
Defined.

(** X9.  Under the same conditions, a slot ends with the four numbers of
    the last write addressed to it in channels [0:4]: a write after which
    no write goes to the same [(l, b, j, i, k)] leaves its normalised centre
    and size there, whatever was written to the slot before. *)
Theorem slot_holds_last_box :
  forall true_boxes input_shape anchors num_classes ws1 w ws2,
    length anchors = 9%nat ->
    (32 <= fst input_shape)%nat -> (32 <= snd input_shape)%nat ->
    Forall (Forall (row_ok input_shape num_classes)) true_boxes ->
    batch_writes anchors (grids3 input_shape) input_shape 0 true_boxes
    = ws1 ++ w :: ws2 ->
    Forall (fun w' => pos w' <> pos w) ws2 ->
    exists y_true,
      run (preprocess_true_boxes true_boxes input_shape anchors num_classes)
      = (inr y_true, 3%nat) /\
      AtPos w (holds (w_box w)) y_true.
Proof.
  intros true_boxes input_shape anchors num_classes ws1 w ws2 Hlen Hh Hw Hrows
         Hws Hne.
  rewrite (preprocess_as_writes _ _ _ _ Hlen Hrows).
  pose proof (batch_writes_in_range anchors _ input_shape num_classes _
                (grids3_positive input_shape Hh Hw) true_boxes 0
                (Nat.le_refl _) Hrows) as Hrange.
  destruct (fold_writes_labels (grids3 input_shape) num_classes (length true_boxes)
              _ (zeros3 input_shape num_classes (length true_boxes)) 3%nat
              (zeros3_all_slots _ _ _) Hrange)
    as [y' [Hrun _]].
  exists y'. split; [exact Hrun |].
  rewrite Hws in Hrun, Hrange.
  exact (fold_writes_last _ _ _ ws1 ws2 w _ 3%nat y' (zeros3_all_slots _ _ _)
           Hrange Hne Hrun).
Qed.

Lemma slot_holds_last_witness :
  let first_write := cell_write (grids3 (416, 416)%nat) 0 0
                       (normalize (416, 416)%nat (mkTrueBox 100 100 200 200 0)) 0 in
  let last_write := cell_write (grids3 (416, 416)%nat) 0 0
                      (normalize (416, 416)%nat (mkTrueBox 104 104 204 204 1)) 0 in
  pos first_write = pos last_write /\
  exists y_true,
    run (preprocess_true_boxes shared_cell_batch (416, 416)%nat yolo_anchors 2)
    = (inr y_true, 3%nat) /\
    AtPos last_write (holds (w_box last_write)) y_true.
Proof.
  cbv zeta. split; [vm_compute; reflexivity |].
  apply (slot_holds_last_box shared_cell_batch (416, 416)%nat yolo_anchors 2
           [cell_write (grids3 (416, 416)%nat) 0 0
              (normalize (416, 416)%nat (mkTrueBox 100 100 200 200 0)) 0]
           (cell_write (grids3 (416, 416)%nat) 0 0
              (normalize (416, 416)%nat (mkTrueBox 104 104 204 204 1)) 0)
           []).
  - reflexivity.
  - cbn. lia.
  - cbn. lia.
  - unfold shared_cell_batch. rows_ok.
  - vm_compute. reflexivity.
  - constructor.
Defined.

End Overwrite.

(** ** [box_iou]: range, identical boxes, symmetry *)

Module IoUFacts.

Import QAux Loss NmsFacts.
Local Open Scope Q_scope.

(** Overlap of the intervals of width [w1] around [c1] and [w2] around
    [c2], as [box_iou] computes it on each axis. *)
Definition overlap (c1 w1 c2 w2 : Q) : Q :=
  Qmax (Qmin (c1 + w1 / 2) (c2 + w2 / 2) - Qmax (c1 - w1 / 2) (c2 - w2 / 2)) 0.

Lemma intersect_area_overlap b1 b2 :
  intersect_area b1 b2
  = overlap (bx b1) (bw b1) (bx b2) (bw b2) * overlap (by_ b1) (bh b1) (by_ b2) (bh b2).
Proof. reflexivity. Qed.






Lemma overlap_sym c1 w1 c2 w2 : overlap c1 w1 c2 w2 == overlap c2 w2 c1 w1.
Proof.
  unfold overlap. apply Qmax_compat; [| reflexivity].
  rewrite (Qmin_comm (c1 + w1 / 2)), (Qmax_comm (c1 - w1 / 2)). reflexivity.
Qed.


Lemma intersect_area_sym b1 b2 : intersect_area b1 b2 == intersect_area b2 b1.
Proof.
  rewrite !intersect_area_overlap.
  rewrite (overlap_sym (bx b1)), (overlap_sym (by_ b1)). reflexivity.
Qed.

Lemma union_area_sym b1 b2 : union_area b1 b2 == union_area b2 b1.
Proof. unfold union_area. rewrite (intersect_area_sym b1 b2). ring. Qed.





(** Equality of float results up to equality of rationals. *)
Definition fval_eq (u v : fval) : Prop :=
  match u, v with
  | Fin p, Fin q => p == q
  | PInf, PInf | NInf, NInf | NaN, NaN => True
  | _, _ => False
  end.

Lemma Qeq_bool_eq_compat a a' b b' : a == a' -> b == b' -> Qeq_bool a b = Qeq_bool a' b'.
Proof.
  intros Ha Hb. destruct (Qeq_bool a b) eqn:E; destruct (Qeq_bool a' b') eqn:E';
    try reflexivity.
  - apply Qeq_bool_iff in E. apply Qeq_bool_neq in E'. exfalso. apply E'.
    rewrite <- Ha, <- Hb. exact E.
  - apply Qeq_bool_iff in E'. apply Qeq_bool_neq in E. exfalso. apply E.
    rewrite Ha, Hb. exact E'.
Qed.

Lemma Qltb_compat a a' b b' : a == a' -> b == b' -> Qltb a b = Qltb a' b'.
Proof.
  intros Ha Hb. destruct (Qltb a b) eqn:E; destruct (Qltb a' b') eqn:E';
    try reflexivity.
  - apply Qltb_lt in E. apply Qltb_ge in E'. lra.
  - apply Qltb_lt in E'. apply Qltb_ge in E. lra.
Qed.

Lemma fdiv_compat a a' b b' : a == a' -> b == b' -> fval_eq (fdiv a b) (fdiv a' b').
Proof.
  intros Ha Hb. unfold fdiv.
  rewrite (Qeq_bool_eq_compat b b' 0 0 Hb (Qeq_refl 0)).
  rewrite (Qeq_bool_eq_compat a a' 0 0 Ha (Qeq_refl 0)).
  rewrite (Qltb_compat 0 0 a a' (Qeq_refl 0) Ha).
  destruct (Qeq_bool b' 0) eqn:E.
  - destruct (Qeq_bool a' 0); [exact I |]. destruct (Qltb 0 a'); exact I.
  - cbn. apply Qeq_bool_neq in E. rewrite Ha, Hb. reflexivity.
Qed.





(** X12.  [box_iou] is symmetric: the entry for [(b1, b2)] and the entry
    for [(b2, b1)] are the same number, or the same infinity, or both
    NaN. *)
Theorem box_iou_symmetric :
  forall b1 b2 : XYWH, fval_eq (iou_pair b1 b2) (iou_pair b2 b1).
Proof.
  intros b1 b2. unfold iou_pair.
  apply fdiv_compat; [apply intersect_area_sym | apply union_area_sym].
Qed.

End IoUFacts.

(** ** [YOLO.detect_image] (keras_yolo3/yolo.py) *)

Module Detect.

Import QAux Py Correct Filter.
Local Open Scope Q_scope.

(** [all(model_image_size)] for a pair whose entries are an integer or
    [None]. *)
Definition truthy (d : option Z) : bool :=
  match d with
  | Some v => negb (Z.eqb v 0)
  | None => false
  end.

Definition configured (model_image_size : option Z * option Z) : bool :=
  truthy (fst model_image_size) && truthy (snd model_image_size).

(** The size [(w, h)] handed to [letterbox_image]: the reversed model size
    after the assertion [size % 32 == 0] on both entries, or else the image
    size cut down to multiples of 32. *)
Definition letterbox_size (model_image_size : option Z * option Z)
    (image_width image_height : Z) : Exn + (Z * Z) :=
  match model_image_size with
  | (Some mh, Some mw) =>
      if configured model_image_size then
        if Z.eqb (mh mod 32) 0 then
          if Z.eqb (mw mod 32) 0 then inr (mw, mh) else inl AssertionError
        else inl AssertionError
      else inr (image_width - image_width mod 32, image_height - image_height mod 32)%Z
  | _ => inr (image_width - image_width mod 32, image_height - image_height mod 32)%Z
  end.

(** One entry of [predicts]: the fields of [PREDICT_FIELDS] in order,
    [int(c)], [class_names[c]], [float(out_scores[i])] and the four corners
    through [int]. *)
Record Prediction : Type := mkPrediction
  { p_class : nat;
    p_label : String.string;
    p_confidence : Q;
    p_ymin : Z; p_xmin : Z; p_ymax : Z; p_xmax : Z }.

Fixpoint traverse {A B} (f : A -> Exn + B) (l : list A) : Exn + list B :=
  match l with
  | [] => inr []
  | x :: r =>
      match f x with
      | inl e => inl e
      | inr y => match traverse f r with
                 | inl e => inl e
                 | inr ys => inr (y :: ys)
                 end
      end
  end.

(** The body of the loop over the detections: the three lookups
    [class_names[c]], [out_boxes[i]] and [out_scores[i]]. *)
Definition predict (class_names : list String.string) (out_boxes : list Box)
    (out_scores : list Q) (ic : nat * nat) : Exn + Prediction :=
  let '(i, c) := ic in
  match nth_error class_names c, nth_error out_boxes i, nth_error out_scores i with
  | Some label, Some box, Some s =>
      inr {| p_class := c; p_label := label; p_confidence := s;
             p_ymin := Qtrunc (b_ymin box); p_xmin := Qtrunc (b_xmin box);
             p_ymax := Qtrunc (b_ymax box); p_xmax := Qtrunc (b_xmax box) |}
  | _, _, _ => inl IndexError
  end.

(** [for i, c in reversed(list(enumerate(out_classes))): ...
     predicts.append(pred)] *)
Definition predictions (class_names : list String.string) (out_boxes : list Box)
    (out_scores : list Q) (out_classes : list nat) : Exn + list Prediction :=
  traverse (predict class_names out_boxes out_scores)
           (rev (combine (seq 0 (length out_classes)) out_classes)).

(** [detect_image] from the outputs of the network on: the detections of
    [_create_model], which passes [len(self.class_names)] as the number of
    classes, turned into predictions. *)
Definition detect_image (self : YOLO) (class_names : list String.string)
    (yolo_outputs : list (list Candidate)) : Exn + list Prediction :=
  let '(out_boxes, out_scores, out_classes) :=
    YOLO_create_model self yolo_outputs (length class_names) in
  predictions class_names out_boxes out_scores out_classes.

Definition corners (box : Box) : Z * Z * Z * Z :=
  (Qtrunc (b_ymin box), Qtrunc (b_xmin box), Qtrunc (b_ymax box), Qtrunc (b_xmax box)).

Definition p_corners (p : Prediction) : Z * Z * Z * Z :=
  (p_ymin p, p_xmin p, p_ymax p, p_xmax p).

End Detect.

Module DetectFacts.

Import QAux Py Correct Filter FilterFacts Detect.
Local Open Scope Q_scope.

(** X13.  The size [detect_image] letterboxes to has both sides multiples
    of 32.  When the model size is not fully given it is the image size
    rounded down, so less than 32 pixels are lost on each side; when it is
    given, the only failure is the assertion on a side that is not a
    multiple of 32. *)
Theorem detect_image_size_multiple_of_32 :
  forall model_image_size image_width image_height,
    match letterbox_size model_image_size image_width image_height with
    | inr (w, h) =>
        (w mod 32 = 0 /\ h mod 32 = 0)%Z /\
        (configured model_image_size = false ->
         (image_width - 32 < w <= image_width)%Z /\
         (image_height - 32 < h <= image_height)%Z) /\
        (configured model_image_size = true ->
         model_image_size = (Some h, Some w))
    | inl e =>
        e = AssertionError /\ configured model_image_size = true
    end.
Proof.
  intros ms iw ih.
  assert (Hcut : forall v : Z,
             ((v - v mod 32) mod 32 = 0 /\ v - 32 < v - v mod 32 <= v)%Z).
  { intros v. pose proof (Z.mod_pos_bound v 32 ltac:(lia)) as Hb.
    split; [| lia].
    rewrite Zminus_mod, Z.mod_mod by lia. rewrite Z.sub_diag. reflexivity. }
  assert (Hfree : configured ms = false ->
            (((iw - iw mod 32) mod 32 = 0 /\ (ih - ih mod 32) mod 32 = 0)%Z /\
             (configured ms = false ->
              (iw - 32 < iw - iw mod 32 <= iw)%Z /\ (ih - 32 < ih - ih mod 32 <= ih)%Z) /\
             (configured ms = true ->
              ms = (Some (ih - ih mod 32)%Z, Some (iw - iw mod 32)%Z)))).
  { intros Hc. split; [split; apply Hcut |]. split.
    - intros _. split; apply Hcut.
    - intros Ht. congruence. }
  unfold letterbox_size.
  destruct ms as [[mh |] [mw |]];
    try (apply Hfree; unfold configured; cbn [fst snd truthy];
         first [reflexivity | apply andb_false_r]).
  destruct (configured (Some mh, Some mw)) eqn:Ec; [| apply Hfree; reflexivity].
  destruct (Z.eqb_spec (mh mod 32) 0) as [Eh | Eh]; [| split; reflexivity].
  destruct (Z.eqb_spec (mw mod 32) 0) as [Ew | Ew]; [| split; reflexivity].
  split; [split; assumption |]. split; [intros H; discriminate H | intros _; reflexivity].
Qed.

Lemma traverse_map {A B} (f : A -> Exn + B) (g : A -> B) (l : list A) :
  Forall (fun x => f x = inr (g x)) l -> traverse f l = inr (map g l).
Proof.
  induction 1 as [| x l Hx Hl IH]; cbn; [reflexivity |].
  rewrite Hx, IH. reflexivity.
Qed.

Lemma map_nth_seq {A} (l : list A) (d : A) :
  map (fun i => nth i l d) (seq 0 (length l)) = l.
Proof.
  induction l as [| x l IH]; [reflexivity |].
  cbn [length seq map nth]. rewrite <- seq_shift, map_map. cbn [nth].
  rewrite IH. reflexivity.
Qed.

Lemma map_fst_combine {A B} (l : list A) (r : list B) :
  length l = length r -> map fst (combine l r) = l.
Proof.
  revert r. induction l as [| x l IH]; intros [| y r] H; try discriminate;
    [reflexivity |].
  cbn. rewrite IH; [reflexivity | cbn in H; lia].
Qed.

Lemma map_snd_combine {A B} (l : list A) (r : list B) :
  length l = length r -> map snd (combine l r) = r.
Proof.
  revert r. induction l as [| x l IH]; intros [| y r] H; try discriminate;
    [reflexivity |].
  cbn. rewrite IH; [reflexivity | cbn in H; lia].
Qed.

(** The prediction the loop builds for detection [i] of class [c]. *)
Definition prediction_of (class_names : list String.string) (out_boxes : list Box)
    (out_scores : list Q) (ic : nat * nat) : Prediction :=
  let box := nth (fst ic) out_boxes zero_box in
  {| p_class := snd ic;
     p_label := nth (snd ic) class_names String.EmptyString;
     p_confidence := nth (fst ic) out_scores 0;
     p_ymin := Qtrunc (b_ymin box); p_xmin := Qtrunc (b_xmin box);
     p_ymax := Qtrunc (b_ymax box); p_xmax := Qtrunc (b_xmax box) |}.

Lemma predictions_in_range class_names out_boxes out_scores out_classes :
  length out_boxes = length out_classes ->
  length out_scores = length out_classes ->
  Forall (fun c => (c < length class_names)%nat) out_classes ->
  exists preds,
    predictions class_names out_boxes out_scores out_classes = inr preds /\
    map p_class preds = rev out_classes /\
    map p_confidence preds = rev out_scores /\
    map p_corners preds = rev (map corners out_boxes) /\
    Forall (fun p => nth_error class_names (p_class p) = Some (p_label p)) preds.
Proof.
  intros Hb Hs Hc.
  set (pairs := combine (seq 0 (length out_classes)) out_classes).
  set (g := prediction_of class_names out_boxes out_scores).
  assert (Hlen : length (seq 0 (length out_classes)) = length out_classes)
    by apply length_seq.
  assert (Hpairs : Forall (fun ic => predict class_names out_boxes out_scores ic
                                     = inr (g ic)) pairs).
  { apply Forall_forall. intros [i c] Hin. unfold predict.
    pose proof (in_combine_l _ _ _ _ Hin) as Hi. apply in_seq in Hi.
    pose proof (in_combine_r _ _ _ _ Hin) as Hcin.
    rewrite Forall_forall in Hc. specialize (Hc c Hcin).
    rewrite (nth_error_nth' class_names String.EmptyString Hc).
    rewrite (nth_error_nth' out_boxes zero_box) by lia.
    rewrite (nth_error_nth' out_scores 0) by lia.
    reflexivity. }
  exists (map g (rev pairs)). split.
  { unfold predictions. fold pairs. apply traverse_map.
    apply Forall_rev. exact Hpairs. }
  rewrite !map_rev, !map_map. repeat (apply conj).
  - f_equal. transitivity (map snd pairs); [reflexivity |].
    apply map_snd_combine. exact Hlen.
  - f_equal. transitivity (map (fun i => nth i out_scores 0) (map fst pairs));
      [rewrite map_map; reflexivity |].
    unfold pairs. rewrite (map_fst_combine _ _ Hlen), <- Hs. apply map_nth_seq.
  - f_equal.
    transitivity (map corners (map (fun i => nth i out_boxes zero_box) (map fst pairs)));
      [rewrite !map_map; reflexivity |].
    unfold pairs. rewrite (map_fst_combine _ _ Hlen), <- Hb, map_nth_seq.
    reflexivity.
  - apply Forall_forall. intros p Hp. apply in_rev, in_map_iff in Hp.
    destruct Hp as [[i c] [<- Hin]].
    pose proof (in_combine_r _ _ _ _ Hin) as Hcin.
    rewrite Forall_forall in Hc. specialize (Hc c Hcin).
    cbn [g prediction_of p_class p_label snd].
    apply nth_error_nth'. exact Hc.
Qed.

Lemma yolo_eval_classes_in_range outs num_classes ob os oi :
  let out := yolo_eval outs num_classes ob os oi in
  length (fst (fst out)) = length (snd out) /\
  length (snd (fst out)) = length (snd out) /\
  Forall (fun c => (c < num_classes)%nat) (snd out).
Proof.
  intros out.
  destruct (eval_classes_zip (all_boxes outs) (all_scores outs) (kwarg ob 20%nat)
              (kwarg os (6 # 10)) (kwarg oi (5 # 10)) (seq 0 num_classes))
    as [Hb [Hs Hz]].
  assert (Hout : out = eval_classes (all_boxes outs) (all_scores outs) (kwarg ob 20%nat)
                         (kwarg os (6 # 10)) (kwarg oi (5 # 10)) (seq 0 num_classes))
    by reflexivity.
  rewrite <- Hout in Hb, Hs, Hz.
  split; [exact Hb |]. split; [exact Hs |].
  pose proof (blocks_from_candidates outs num_classes (kwarg ob 20%nat)
                (kwarg os (6 # 10)) (kwarg oi (5 # 10))) as Hf.
  rewrite <- all_boxes_candidates, <- all_scores_candidates, <- Hz in Hf.
  assert (Hsnd : map d_class (zip3 out) = snd out).
  { unfold zip3. apply map_snd_combine. rewrite length_combine. lia. }
  rewrite <- Hsnd. apply Forall_forall. intros c Hc.
  apply in_map_iff in Hc. destruct Hc as [d [<- Hd]].
  rewrite Forall_forall in Hf. exact (proj1 (Hf d Hd)).
Qed.

(** X14.  On the detections of [yolo_eval] the loop of [detect_image]
    never fails: every class id it looks up is below
    [len(self.class_names)] and every index is within the boxes and scores.
    The predictions come out in the reverse order of the detections, each
    with the class id, the name of that class, the score and the corners
    cut to integers. *)
Theorem detect_image_predictions_reversed :
  forall (self : YOLO) (class_names : list String.string)
         (yolo_outputs : list (list Candidate)),
    let out := YOLO_create_model self yolo_outputs (length class_names) in
    exists preds,
      detect_image self class_names yolo_outputs = inr preds /\
      map p_class preds = rev (snd out) /\
      map p_confidence preds = rev (snd (fst out)) /\
      map p_corners preds = rev (map corners (fst (fst out))) /\
      Forall (fun p => nth_error class_names (p_class p) = Some (p_label p)) preds.
Proof.
  intros self class_names yolo_outputs out.
  destruct (yolo_eval_classes_in_range yolo_outputs (length class_names) None
              (Some (score self)) (Some (iou self))) as [Hb [Hs Hc]].
  fold (YOLO_create_model self yolo_outputs (length class_names)) in Hb, Hs, Hc.
  fold out in Hb, Hs, Hc.
  unfold detect_image. fold out.
  destruct out as [[out_boxes out_scores] out_classes]. cbn [fst snd] in *.
  apply predictions_in_range; assumption.
Qed.

End DetectFacts.

(** ** [data_generator] (yolo3/model.py): which lines make up a batch *)

Module Generator.

Import Py.

Section Lines.

Variable A : Type.

(** [np.random.shuffle(annotation_lines)], in place. *)
Variable shuffle : list A -> list A.




End Lines.

End Generator.

Module GeneratorFacts.

Import Py Generator.


Section Lines.

Variable A : Type.
Variable shuffle : list A -> list A.
Hypothesis shuffle_permutes : forall l, Permutation l (shuffle l).






End Lines.


End GeneratorFacts.

(** ** Where [yolo_head] can put a box *)

Module CellFacts.

Import Head HeadFacts.
Local Open Scope R_scope.






End CellFacts.

(** ** [get_nb_classes] (yolo3/utils.py) against the class assertion *)

Module Classes.

(** [get_nb_classes], from the contents of the two files on: the lines of
    the class file when that path is a file, otherwise the class fields
    [int(bbox.split(',')[-1])] of every box of every annotation line when
    that path is a file.  The count is [len(class_names)], or
    [len(set(classes))], or 0. *)
Definition get_nb_classes (class_names : option (list String.string))
    (annotation_classes : option (list (list Z))) : nat :=
  match class_names with
  | Some names => length names
  | None =>
      match annotation_classes with
      | Some lines => length (nodup Z.eq_dec (concat lines))
      | None => 0%nat
      end
  end.

End Classes.

Module ClassFacts.

Import QAux Assigner Classes.

Definition below (n : nat) (c : Z) : Prop := (c < Z.of_nat n)%Z.

Definition segment (n : nat) : list Z := map Z.of_nat (seq 0 n).

Lemma in_segment (n : nat) (k : Z) : In k (segment n) <-> (0 <= k < Z.of_nat n)%Z.
Proof.
  unfold segment. rewrite in_map_iff. split.
  - intros [i [<- Hi]]. apply in_seq in Hi. lia.
  - intros H. exists (Z.to_nat k). split; [lia |]. apply in_seq. lia.
Qed.

Lemma segment_NoDup (n : nat) : NoDup (segment n).
Proof.
  unfold segment. apply Finite.Injective_map_NoDup; [| apply seq_NoDup].
  intros i j H. lia.
Qed.

Lemma segment_length (n : nat) : length (segment n) = n.
Proof. unfold segment. rewrite length_map. apply length_seq. Qed.

(** Among non-negative ids, all of them are below the number of distinct
    ids exactly when they are the ids 0, 1, ..., without a gap. *)
Lemma distinct_count_gapless (ids : list Z) :
  Forall (fun c => (0 <= c)%Z) ids ->
  let n := length (nodup Z.eq_dec ids) in
  Forall (below n) ids <-> (forall k, (0 <= k < Z.of_nat n)%Z -> In k ids).
Proof.
  intros Hpos n.
  pose proof (NoDup_nodup Z.eq_dec ids) as Hnd.
  rewrite Forall_forall in Hpos. split.
  - intros Hlt k Hk. rewrite Forall_forall in Hlt.
    assert (Hperm : Permutation (nodup Z.eq_dec ids) (segment n)).
    { apply NoDup_Permutation_bis; [exact Hnd | rewrite segment_length; apply Nat.le_refl |].
      intros c Hc. apply nodup_In in Hc. apply in_segment.
      split; [apply Hpos, Hc | apply Hlt, Hc]. }
    apply (nodup_In Z.eq_dec).
    apply (Permutation_in k (Permutation_sym Hperm)). apply in_segment. exact Hk.
  - intros Hall. apply Forall_forall. intros c Hc.
    assert (Hperm : Permutation (segment n) (nodup Z.eq_dec ids)).
    { apply NoDup_Permutation_bis;
        [apply segment_NoDup | rewrite segment_length; apply Nat.le_refl |].
      intros k Hk. apply nodup_In. apply Hall. apply in_segment. exact Hk. }
    assert (Hin : In c (segment n)).
    { apply (Permutation_in c (Permutation_sym Hperm)). apply nodup_In. exact Hc. }
    apply in_segment in Hin. unfold below. lia.
Qed.

Lemma class_ids_ok_ids (true_boxes : list (list TrueBox)) (lines : list (list Z))
    (n : nat) :
  map (map class_id) true_boxes = map (map inject_Z) lines ->
  class_ids_ok true_boxes n = true <-> Forall (below n) (concat lines).
Proof.
  revert lines. induction true_boxes as [| rows tb IH]; intros [| line lines] H;
    try discriminate.
  - cbn. split; [constructor | reflexivity].
  - cbn [map] in H. injection H as Hrow Hrest.
    unfold class_ids_ok in *. cbn [forallb concat].
    rewrite Bool.andb_true_iff, Forall_app, (IH lines Hrest).
    assert (Hline : forallb (fun r => Qltb (class_id r) (nat2Q n)) rows = true
                    <-> Forall (below n) line).
    { clear - Hrow. revert line Hrow.
      induction rows as [| r rows IHr]; intros [| c line] Hrow; try discriminate.
      - cbn. split; [constructor | reflexivity].
      - cbn [map] in Hrow. injection Hrow as Hc Hr.
        cbn [forallb]. rewrite Bool.andb_true_iff, (IHr line Hr), Hc.
        assert (Hq : Qltb (inject_Z c) (nat2Q n) = true <-> below n c).
        { unfold below, nat2Q. rewrite Zlt_Qlt. split.
          - apply Qltb_lt.
          - intros Hlt. destruct (Qltb (inject_Z c) (inject_Z (Z.of_nat n))) eqn:E;
              [reflexivity |].
            apply Qltb_ge in E. exfalso. apply (Qlt_not_le _ _ Hlt E). }
        rewrite Hq. split.
        + intros [H1 H2]. constructor; assumption.
        + intros H. inversion H; subst. split; assumption. }
    rewrite Hline. reflexivity.
Qed.

(** X17.  When the number of classes is counted from the annotations,
    [get_nb_classes] gives the number of distinct class ids, not the
    largest id plus one.  For boxes that carry the class ids of the
    annotation lines, all non-negative, the class assertion of
    [preprocess_true_boxes] with that count holds exactly when the ids in
    use are 0, 1, ..., count - 1 without a gap. *)
Theorem counted_classes_fit_only_gapless_ids :
  forall (lines : list (list Z)) (true_boxes : list (list TrueBox)),
    map (map class_id) true_boxes = map (map inject_Z) lines ->
    Forall (fun c => (0 <= c)%Z) (concat lines) ->
    let n := get_nb_classes None (Some lines) in
    class_ids_ok true_boxes n = true <->
    (forall k, (0 <= k < Z.of_nat n)%Z -> In k (concat lines)).
Proof.
  intros lines true_boxes Hids Hpos n.
  rewrite (class_ids_ok_ids true_boxes lines n Hids).
  apply (distinct_count_gapless (concat lines) Hpos).
Qed.

Lemma counted_classes_witness :
  let lines := [[0; 2]; [2]]%Z in
  let true_boxes := [[mkTrueBox 10 10 50 50 0; mkTrueBox 20 20 60 60 2];
                     [mkTrueBox 5 5 30 30 2]] in
  get_nb_classes None (Some lines) = 2%nat /\
  class_ids_ok true_boxes 2 = false /\
  (class_ids_ok true_boxes (get_nb_classes None (Some lines)) = true <->
   (forall k, (0 <= k < Z.of_nat (get_nb_classes None (Some lines)))%Z ->
              In k (concat lines))).
Proof.
  cbv zeta. split; [reflexivity |]. split; [reflexivity |].
  apply (counted_classes_fit_only_gapless_ids [[0; 2]; [2]]%Z
           [[mkTrueBox 10 10 50 50 0; mkTrueBox 20 20 60 60 2];
            [mkTrueBox 5 5 30 30 2]]).
  - reflexivity.
  - repeat constructor; lia.
Defined.

End ClassFacts.
